(** * Incremental contact discovery: user sets, leaky buckets, request handlers

    A shallow embedding of [userSet.py], [bucket.py], [errors.py] and the
    entry points of [app.py] with the functions they call.

    Conventions of the embedding.
    - A Python [bytes] value is a [list Byte.byte]; a [dict] is a [gmap].
    - An object is split into its constructor parameters, which no method
      ever assigns (Section variables), and its mutable [_users] dictionary
      (the state passed in and out of each method).
    - Python [int] is [Z].  Python [float] is the IEEE 754 binary64 type,
      here the primitive [float] of Rocq with its hardware operations:
      sums, differences, products, quotients and comparisons round and
      order as CPython's do, infinities and NaN included.  The exceptions
      of float arithmetic ([OverflowError], [ZeroDivisionError],
      [ValueError]) are modelled ([None]).
    - The clock ([time()]) and the request body ([request.get_data()]) are
      inputs of the handlers. *)

From Stdlib Require Import ZArith Lia.
From Corelib Require Import PrimFloat SpecFloat FloatOps.
From stdpp Require Import base numbers countable list gmap fin_maps.

Local Open Scope Z_scope.

(** ** Python values *)

Definition bytes : Type := list Byte.byte.

Global Instance byte_eq_dec : EqDecision Byte.byte := Byte.byte_eq_dec.

Global Instance byte_countable : Countable Byte.byte :=
  inj_countable Byte.to_N Byte.of_N Byte.of_to_N.

(** A Python [float]. *)
Abbreviation float64 := PrimFloat.float.

(** [float(n)] for an integer [n], also the implicit conversion of an
    integer operand of a float operation: the nearest double, ties to even.
    Where this is an infinity, CPython raises [OverflowError] instead
    ([float_raises]). *)
Definition float (n : Z) : float64 :=
  SF2Prim (binary_normalize prec emax n 0 false).

Definition float_raises (n : Z) : bool := is_infinity (float n).

(** [x / y] on floats: a zero divisor raises [ZeroDivisionError] ([None]);
    an overflow gives an infinity. *)
Definition truediv (x y : float64) : option float64 :=
  if is_zero y then None else Some (x / y)%float.

(** [n / y] for an integer [n] and a float [y]: [n] is converted first. *)
Definition int_truediv (n : Z) (y : float64) : option float64 :=
  if float_raises n then None else truediv (float n) y.

(** [int(x)] for a float [x]: truncation towards zero; [OverflowError] for
    an infinity and [ValueError] for a NaN ([None]). *)
Definition int (x : float64) : option Z :=
  match Prim2SF x with
  | S754_zero _ => Some 0
  | S754_finite s m e =>
      let n := Z.shiftl (Z.pos m) e in Some (if s then - n else n)
  | S754_infinity _ | S754_nan => None
  end.

(** [math.ceil], with the same two exceptions.  On a negative exponent
    [Z.shiftl] is the division by a power of two rounded down. *)
Definition ceil (x : float64) : option Z :=
  match Prim2SF x with
  | S754_zero _ => Some 0
  | S754_finite s m e =>
      Some (if s then - Z.shiftl (Z.pos m) e else - Z.shiftl (Z.neg m) e)
  | S754_infinity _ | S754_nan => None
  end.

(** ** userSet.py *)

Module UserSet.

(** [self._users]: identifier to authentication token. *)
Abbreviation t := (gmap bytes bytes).

Definition __init__ : t := ∅.

Definition userCount (self : t) : Z := Z.of_nat (size self).

Definition userExists (self : t) (user : bytes) : bool :=
  match self !! user with
  | None => false
  | Some _ => true
  end.

Definition addUser (self : t) (user auth_token : bytes) : t :=
  <[user := auth_token]> self.

Definition removeUser (self : t) (user : bytes) : t :=
  if bool_decide (user ∉ dom self) then self else delete user self.

Definition isValidUser (self : t) (user auth_token : bytes) : bool :=
  match self !! user with
  | None => false
  | Some storedToken => bool_decide (storedToken = auth_token)
  end.

Definition containedUsers (self : t) (users : list bytes) : list bytes :=
  filter (λ x, x ∈ dom self) users.

Definition clear (self : t) : t := ∅.

End UserSet.

Module ExpiringUserSet.

(** [self._users]: identifier to removal time. *)
Abbreviation t := (gmap bytes Z).

Section Methods.

Variable expiration_time : Z.

Definition __init__ : t := ∅.

Definition userCount (self : t) : Z := Z.of_nat (size self).

Definition userExists (self : t) (user : bytes) : bool :=
  match self !! user with
  | None => false
  | Some _ => true
  end.

Definition addUser (self : t) (user : bytes) (time : Z) : t :=
  let removal_time := time + expiration_time in
  <[user := removal_time]> self.

Definition removeUser (self : t) (user : bytes) : t :=
  if bool_decide (user ∉ dom self) then self else delete user self.

Definition containedUsers (self : t) (users : list bytes) : list bytes :=
  filter (λ x, x ∈ dom self) users.

(** The loop of [update]: every item [(k, v)] with [v > time] is copied
    into the fresh dictionary [filtered]. *)
Definition update_loop (self : t) (time : Z) : t :=
  map_fold (λ k v filtered,
              if bool_decide (v > time) then <[k := v]> filtered
              else filtered) ∅ self.

(** [update] returns the number of removed items and the new [_users]. *)
Definition update (self : t) (time : Z) : Z * t :=
  let filtered := update_loop self time in
  let removed := Z.of_nat (size self) - Z.of_nat (size filtered) in
  (removed, filtered).

Definition clear (self : t) : t := ∅.

End Methods.

End ExpiringUserSet.

(** ** bucket.py *)

Module Bucket.

(** [self._users]: identifier to the time at which the bucket is empty. *)
Abbreviation t := (gmap bytes float64).

Section Methods.

Variables (max_count drain_period : Z).

(** The attributes [self.leak_rate] and [self.drain_period] as [__init__]
    computes them; [self.max_count] is [max_count]. *)
Definition leak_rate : float64 := (float max_count / float drain_period)%float.
Definition drain_period_f : float64 := float drain_period.

(** [__init__] returns the empty [_users], or raises ([None]):
    [OverflowError] from [float(max_count)] or [float(drain_period)],
    [ZeroDivisionError] for [drain_period = 0].  There is an object, with
    the attributes above, only where it returns. *)
Definition __init__ : option t :=
  if float_raises max_count then None
  else if float_raises drain_period then None
  else _ ← truediv (float max_count) (float drain_period); Some ∅.

Definition userCount (self : t) : Z := Z.of_nat (size self).

(** [None] is the exception of [ceil] for an infinity or a NaN. *)
Definition currentSizeForUser (self : t) (user : bytes) (time : float64)
    : option Z :=
  match self !! user with
  | None => Some 0
  | Some timestamp =>
      if (timestamp <? time)%float then Some max_count
      else ceil ((timestamp - time) * leak_rate)%float
  end.

(** [userCanSyncAmount] returns its boolean and the new [_users]; [None] is
    the [OverflowError] or [ZeroDivisionError] of
    [amount / self.leak_rate]. *)
Definition userCanSyncAmount (self : t) (user : bytes) (amount : Z)
    (time : float64) : option (bool * t) :=
  if bool_decide (amount > max_count) then Some (false, self)
  else
    match self !! user with
    | None =>
        d ← int_truediv amount leak_rate;
        Some (true, <[user := (time + d)%float]> self)
    | Some timestamp =>
        if (timestamp <? time)%float then
          d ← int_truediv amount leak_rate;
          Some (true, <[user := (time + d)%float]> self)
        else
          d ← int_truediv amount leak_rate;
          let timestamp := (timestamp + d)%float in
          if (time + drain_period_f <? timestamp)%float
          then Some (false, self)
          else Some (true, <[user := timestamp]> self)
    end.

(** [v > time] is [time < v]. *)
Definition cleanUsers (self : t) (time : float64) : t :=
  filter (λ kv, Is_true (time <? kv.2)%float) self.

Definition clear (self : t) : t := ∅.

End Methods.

End Bucket.

(** ** Messages_pb2.py *)

Inductive Result : Set :=
  | SUCCESS
  | AUTHENTICATION_INVALID
  | RATE_LIMIT_EXCEEDED
  | REQUEST_DATA_MISSING
  | REQUEST_DATA_INVALID.

Record Request : Type := mkRequest {
  user : bytes;
  auth_token : bytes;
  identifiers : list bytes
}.

Record Response : Type := mkResponse {
  result : Result;
  added_users : list bytes;
  removed_users : list bytes
}.

Global Instance Result_eq_dec : EqDecision Result.
Proof. solve_decision. Defined.

(** A decoder of the [Request] wire format: proto3, with [user],
    [auth_token] and [identifiers] the length-delimited fields 1, 2 and 3 of
    the descriptor.  Decoding is done by the protobuf runtime, which is not
    part of the repository: the handlers below take the decoder as a
    parameter, and this one serves to run them on concrete bodies.  Fields
    of other numbers are skipped; a truncated field, a field number 0 and
    the group wire types are errors ([None]). *)
Fixpoint varint (fuel : nat) (bs : bytes) : option (N * bytes) :=
  match fuel, bs with
  | S fuel, b :: rest =>
      let n := Byte.to_N b in
      if (n <? 128)%N then Some (n, rest)
      else '(hi, rest') ← varint fuel rest;
           Some ((n - 128) + 128 * hi, rest')%N
  | _, _ => None
  end.

Definition skip (n : nat) (bs : bytes) : option bytes :=
  if (length bs <? n)%nat then None else Some (drop n bs).

Definition store_field (field : N) (payload : bytes) (r : Request) : Request :=
  match field with
  | 1%N => mkRequest payload (auth_token r) (identifiers r)
  | 2%N => mkRequest (user r) payload (identifiers r)
  | 3%N => mkRequest (user r) (auth_token r) (identifiers r ++ [payload])
  | _ => r
  end.

Fixpoint decode_fields (fuel : nat) (bs : bytes) (r : Request)
    : option Request :=
  match bs, fuel with
  | [], _ => Some r
  | _, O => None
  | _, S fuel =>
      '(tag, bs) ← varint 10 bs;
      let field := (tag / 8)%N in
      if (field =? 0)%N then None
      else
        match (tag mod 8)%N with
        | 0%N => '(_, bs) ← varint 10 bs; decode_fields fuel bs r
        | 1%N => bs ← skip 8 bs; decode_fields fuel bs r
        | 2%N =>
            '(size, bs) ← varint 10 bs;
            rest ← skip (N.to_nat size) bs;
            decode_fields fuel rest
              (store_field field (take (N.to_nat size) bs) r)
        | 5%N => bs ← skip 4 bs; decode_fields fuel bs r
        | _ => None
        end
  end.

Definition Request_ParseFromString (data : bytes) : option Request :=
  decode_fields (length data) data (mkRequest [] [] []).

(** ** errors.py *)

Inductive ICDError : Set :=
  | AuthenticationError
  | RateLimitError
  | MissingDataError
  | InvalidDataError.

(** The [result] attribute each subclass passes to [ICDError.__init__]. *)
Definition ICDError_result (e : ICDError) : Result :=
  match e with
  | AuthenticationError => AUTHENTICATION_INVALID
  | RateLimitError => RATE_LIMIT_EXCEEDED
  | MissingDataError => REQUEST_DATA_MISSING
  | InvalidDataError => REQUEST_DATA_INVALID
  end.

(** ** app.py *)

Module App.

(** Configuration. *)
Definition s2_period : Z := 86400.
Definition s2_delta : Z := 864000.
Definition max_contacts : Z := 20000.

(** The module-level variables: the [_users] dictionary of each of the five
    objects.  [s1_buckets] is [Bucket(max_contacts, drain_period=s2_delta)],
    [s2_buckets] is [Bucket(max_contacts, drain_period=s2_period)], and both
    expiring sets have [expiration_time=s2_delta]. *)
Record State : Type := mkState {
  s1 : UserSet.t;
  s2_added : ExpiringUserSet.t;
  s2_removed : ExpiringUserSet.t;
  s1_buckets : Bucket.t;
  s2_buckets : Bucket.t
}.

(** The state when the module is loaded: the five objects as their
    constructors return them ([initial_buckets]). *)
Definition initial : State :=
  mkState UserSet.__init__ ExpiringUserSet.__init__ ExpiringUserSet.__init__
          ∅ ∅.

Definition set_s1 (v : UserSet.t) (st : State) : State :=
  mkState v (s2_added st) (s2_removed st) (s1_buckets st) (s2_buckets st).
Definition set_s2_added (v : ExpiringUserSet.t) (st : State) : State :=
  mkState (s1 st) v (s2_removed st) (s1_buckets st) (s2_buckets st).
Definition set_s2_removed (v : ExpiringUserSet.t) (st : State) : State :=
  mkState (s1 st) (s2_added st) v (s1_buckets st) (s2_buckets st).
Definition set_s1_buckets (v : Bucket.t) (st : State) : State :=
  mkState (s1 st) (s2_added st) (s2_removed st) v (s2_buckets st).
Definition set_s2_buckets (v : Bucket.t) (st : State) : State :=
  mkState (s1 st) (s2_added st) (s2_removed st) (s1_buckets st) v.

(** Exceptions that the handlers can meet; [ArithmeticError] is the base
    class of [OverflowError] and [ArithmeticError]. *)
Inductive Exception : Set :=
  | ICD (e : ICDError)
  | ArithmeticError.

(** A computation over the module state that returns or raises; the state
    reached when an exception is raised is kept. *)
Definition M (A : Type) : Type := State → (Exception + A) * State.

Definition ret {A} (a : A) : M A := λ st, (inr a, st).

Definition raise {A} (e : Exception) : M A := λ st, (inl e, st).

Definition bind {A B} (c : M A) (k : A → M B) : M B :=
  λ st, match c st with
        | (inr a, st') => k a st'
        | (inl e, st') => (inl e, st')
        end.

Definition gets {A} (f : State → A) : M A := λ st, (inr (f st), st).

Definition modify (f : State → State) : M unit := λ st, (inr tt, f st).

Global Instance M_ret : MRet M := @ret.
Global Instance M_bind : MBind M := λ A B k c, bind c k.

(** What the client receives: status 200 with an encoded [Response], or a
    status 500 when an exception leaves the handler. *)
Inductive Reply : Type :=
  | HTTP200 (response : Response)
  | HTTP500.

Definition _makeErrorResponse (error : ICDError) : Response :=
  mkResponse (ICDError_result error) [] [].

Definition _makeResponse (added removed : list bytes) : Response :=
  mkResponse SUCCESS added removed.

Definition len {A} (l : list A) : Z := Z.of_nat (length l).

(** A reading of [time.time()]: a float on which [int] does not raise,
    with the integer that [int] returns for it. *)
Record Reading : Set := reading {
  seconds : float64;
  whole : Z;
  seconds_int : int seconds = Some whole
}.

(** [_time()], that is [int(time())], on a reading of the clock. *)
Definition _time (clock : Reading) : Z := whole clock.

Section Handlers.

(** [Messages_pb2.Request().ParseFromString]: the decoder of the protobuf
    runtime, [None] when it raises. *)
Variable ParseFromString : bytes → option Request.

(** [data] is the value of [request.get_data()]. *)
Definition _getDataFromRequest (data : option bytes)
    : M (bytes * bytes * list bytes) :=
  match data with
  | None => raise (ICD MissingDataError)
  | Some data =>
      match ParseFromString data with
      | None => raise (ICD InvalidDataError)
      | Some received_request =>
          ret (user received_request, auth_token received_request,
               identifiers received_request)
      end
  end.

Definition _checkAuthentication (data : option bytes)
    : M (bytes * list bytes) :=
  '(user, auth_token, identifiers) ← _getDataFromRequest data;
  valid ← gets (λ st, UserSet.isValidUser (s1 st) user auth_token);
  if negb valid then raise (ICD AuthenticationError)
  else ret (user, identifiers).

Definition _checkAuthenticationAndExtractIdentifiers (data : option bytes)
    : M (bytes * list bytes) :=
  '(user, identifiers) ← _checkAuthentication data;
  if bool_decide (len identifiers > max_contacts)
  then raise (ICD RateLimitError)
  else ret (user, identifiers).

Definition addNewUser (user auth_token : bytes) (clock : Reading) : M unit :=
  modify (λ st, set_s1 (UserSet.addUser (s1 st) user auth_token) st);;
  modify (λ st, set_s2_added
    (ExpiringUserSet.addUser s2_delta (s2_added st) user (_time clock)) st);;
  modify (λ st, set_s2_removed
    (ExpiringUserSet.removeUser (s2_removed st) user) st).

Definition removeUser (user : bytes) (clock : Reading) : M unit :=
  modify (λ st, set_s1 (UserSet.removeUser (s1 st) user) st);;
  modify (λ st, set_s2_added
    (ExpiringUserSet.removeUser (s2_added st) user) st);;
  modify (λ st, set_s2_removed
    (ExpiringUserSet.addUser s2_delta (s2_removed st) user (_time clock)) st).

(** [s2_added.update] and [s2_removed.update] on the module state. *)
Definition s2_added_update (time : Z) : M Z :=
  λ st,
    let '(removed, users) := ExpiringUserSet.update (s2_added st) time in
    (inr removed, set_s2_added users st).

Definition s2_removed_update (time : Z) : M Z :=
  λ st,
    let '(removed, users) := ExpiringUserSet.update (s2_removed st) time in
    (inr removed, set_s2_removed users st).

Definition _updateUserSets (clock : Reading) : M unit :=
  let currentTime := _time clock in
  removedFromAdded ← s2_added_update currentTime;
  removedFromRemoved ← s2_removed_update currentTime;
  ret tt.

(** [clock] is the clock read by [_updateUserSets]. *)
Definition _catchRequestErrors (clock : Reading) (callback : M Response)
    : State → Reply * State :=
  λ st,
    match _updateUserSets clock st with
    | (inl _, st') => (HTTP500, st')
    | (inr _, st') =>
        match callback st' with
        | (inr response, st'') => (HTTP200 response, st'')
        | (inl (ICD e), st'') => (HTTP200 (_makeErrorResponse e), st'')
        | (inl ArithmeticError, st'') => (HTTP500, st'')
        end
    end.

(** [s1_buckets.userCanSyncAmount] and [s2_buckets.userCanSyncAmount] on the
    module state. *)
Definition s1_buckets_userCanSyncAmount (user : bytes) (amount : Z)
    (time : float64) : M bool :=
  λ st,
    match Bucket.userCanSyncAmount max_contacts s2_delta
            (s1_buckets st) user amount time with
    | None => (inl ArithmeticError, st)
    | Some (allowed, users) => (inr allowed, set_s1_buckets users st)
    end.

Definition s2_buckets_userCanSyncAmount (user : bytes) (amount : Z)
    (time : float64) : M bool :=
  λ st,
    match Bucket.userCanSyncAmount max_contacts s2_period
            (s2_buckets st) user amount time with
    | None => (inl ArithmeticError, st)
    | Some (allowed, users) => (inr allowed, set_s2_buckets users st)
    end.

(** [clock] is the clock read by the handler itself. *)
Definition _fullDiscoveryWithErrors (data : option bytes) (clock : Reading)
    : M Response :=
  '(user, identifiers) ← _checkAuthenticationAndExtractIdentifiers data;
  if bool_decide (len identifiers = 0) then ret (_makeResponse [] [])
  else
    allowed ← s1_buckets_userCanSyncAmount user (len identifiers)
                (seconds clock);
    if negb allowed then raise (ICD RateLimitError)
    else
      found ← gets (λ st, UserSet.containedUsers (s1 st) identifiers);
      ret (_makeResponse found []).

Definition _incrementalDiscoveryWithErrors (data : option bytes) (clock : Reading)
    : M Response :=
  '(user, identifiers) ← _checkAuthenticationAndExtractIdentifiers data;
  if bool_decide (len identifiers = 0) then ret (_makeResponse [] [])
  else
    allowed ← s2_buckets_userCanSyncAmount user (len identifiers)
                (seconds clock);
    if negb allowed then raise (ICD RateLimitError)
    else
      addedUsers ← gets (λ st,
        ExpiringUserSet.containedUsers (s2_added st) identifiers);
      removedUsers ← gets (λ st,
        ExpiringUserSet.containedUsers (s2_removed st) identifiers);
      ret (_makeResponse addedUsers removedUsers).

Definition _registerUserWithErrors (data : option bytes) (clock : Reading)
    : M Response :=
  '(user, auth_token, _) ← _getDataFromRequest data;
  addNewUser user auth_token clock;;
  ret (_makeResponse [] []).

Definition _deleteUserWithErrors (data : option bytes) (clock : Reading)
    : M Response :=
  '(user, _) ← _checkAuthentication data;
  removeUser user clock;;
  ret (_makeResponse [] []).

(** The four entry points.  [clock0] is the reading of the sweep, [clock]
    the later reading of the operation. *)
Definition fullDiscovery (data : option bytes) (clock0 clock : Reading) :=
  _catchRequestErrors clock0 (_fullDiscoveryWithErrors data clock).

Definition incrementalDiscovery (data : option bytes) (clock0 clock : Reading) :=
  _catchRequestErrors clock0 (_incrementalDiscoveryWithErrors data clock).

Definition registerUser (data : option bytes) (clock0 clock : Reading) :=
  _catchRequestErrors clock0 (_registerUserWithErrors data clock).

Definition deleteUser (data : option bytes) (clock0 clock : Reading) :=
  _catchRequestErrors clock0 (_deleteUserWithErrors data clock).

(** The routes of the POST endpoints. *)
Inductive Route : Set :=
  | discovery_full
  | discovery_incremental
  | user_register
  | user_delete.

Definition route (r : Route)
    : option bytes → Reading → Reading → State → Reply * State :=
  match r with
  | discovery_full => fullDiscovery
  | discovery_incremental => incrementalDiscovery
  | user_register => registerUser
  | user_delete => deleteUser
  end.

(** The test endpoints.  They are not wrapped in [_catchRequestErrors]: no
    sweep runs, and an exception leaves the handler as a status 500.
    [os.urandom] is an input, as the clock is: [urandom i] and [clock i] are
    the values drawn and read in iteration [i] of a loop. *)

(** The text bodies ["Success"] and ["Too many"]. *)
Inductive Text : Set :=
  | Success
  | Too_many.

(** [for x in l: body(x)]. *)
Fixpoint for_each {A} (l : list A) (body : A → M unit) : M unit :=
  match l with
  | [] => ret tt
  | x :: l => body x;; for_each l body
  end.

Definition resetServer : State → Text * State :=
  λ st,
    (Success,
     mkState (UserSet.clear (s1 st))
       (ExpiringUserSet.clear (s2_added st))
       (ExpiringUserSet.clear (s2_removed st))
       (Bucket.clear (s1_buckets st)) (Bucket.clear (s2_buckets st))).

(** [None] is a status 500. *)
Definition createUsers (number : Z) (urandom : nat → bytes * bytes)
    (clock : nat → Reading) : State → option Text * State :=
  λ st,
    if bool_decide (number > 10000000) then (Some Too_many, st)
    else
      match for_each (seq 0 (Z.to_nat number))
              (λ i,
                 let user := (urandom i).1 in
                 let token := (urandom i).2 in
                 addNewUser user token (clock i)) st with
      | (inr _, st') => (Some Success, st')
      | (inl _, st') => (None, st')
      end.

Definition addUsers (data : option bytes) (urandom : nat → bytes)
    (clock : nat → Reading) : State → Reply * State :=
  λ st,
    match ('(_, _, ids) ← _getDataFromRequest data;
           for_each (imap (λ i id, (i, id)) ids)
             (λ '(i, id),
                let token := urandom i in
                addNewUser id token (clock i));;
           ret (_makeResponse [] [])) st with
    | (inr response, st') => (HTTP200 response, st')
    | (inl _, st') => (HTTP500, st')
    end.

End Handlers.

End App.

(** * Vocabulary of the properties *)

(** Number of occurrences of [x] in a list of identifiers. *)
Definition occurrences (x : bytes) (l : list bytes) : nat :=
  length (filter (x =.) l).

(** The three facts that pin down the result of a key-presence filter: it is
    a sublist of the input, it holds the present identifiers only, and each
    present identifier occurs as often as in the input. *)
Definition intersection_of {V} (self : gmap bytes V) (ids found : list bytes)
    : Prop :=
  found `sublist_of` ids
  ∧ (∀ x, x ∈ found ↔ x ∈ ids ∧ is_Some (self !! x))
  ∧ (∀ x, is_Some (self !! x) → occurrences x found = occurrences x ids).

Module Examples.

Definition alice : bytes := [Byte.x61].
Definition bob : bytes := [Byte.x62].
Definition carol : bytes := [Byte.x63].
Definition token : bytes := [Byte.x74].

(** The request of [alice] with [token]: without identifiers, and with the
    identifier [bob]. *)
Definition body_alice : bytes :=
  [Byte.x0a; Byte.x01; Byte.x61; Byte.x12; Byte.x01; Byte.x74].
Definition body_alice_bob : bytes :=
  body_alice ++ [Byte.x1a; Byte.x01; Byte.x62].

(** Readings of the clock. *)
Definition t0 : App.Reading := App.reading 0 0 eq_refl.
Definition t5 : App.Reading := App.reading 5 5 eq_refl.
Definition t7 : App.Reading := App.reading 7 7 eq_refl.
Definition t10 : App.Reading := App.reading 10 10 eq_refl.
Definition t20 : App.Reading := App.reading 20 20 eq_refl.
Definition t1234 : App.Reading := App.reading 1234 1234 eq_refl.
Definition t1200000 : App.Reading := App.reading 1200000 1200000 eq_refl.

End Examples.

(** Successive [userCanSyncAmount] calls on one [Bucket] object. *)
Module BucketCalls.

Section Run.

Variables (max_count drain_period : Z).

(** The answers of the calls, each given as user, amount and time, with
    the final dictionary; [None] when a call raises. *)
Fixpoint answers_at (self : Bucket.t) (calls : list (bytes * Z * float64))
    : option (list bool * Bucket.t) :=
  match calls with
  | [] => Some ([], self)
  | (user, amount, time) :: calls =>
      match Bucket.userCanSyncAmount max_count drain_period
              self user amount time with
      | None => None
      | Some (allowed, users) =>
          match answers_at users calls with
          | None => None
          | Some (rest, final) => Some (allowed :: rest, final)
          end
      end
  end.

(** The same with integer times, as the component tests pass them. *)
Definition answers_from (self : Bucket.t) (calls : list (bytes * Z * Z))
    : option (list bool * Bucket.t) :=
  answers_at self (map (λ c, (c.1, float c.2)) calls).

End Run.

End BucketCalls.

(** The result code carried by a reply, if it carries one. *)
Definition reply_result (reply : App.Reply) : option Result :=
  match reply with
  | App.HTTP200 response => Some (result response)
  | App.HTTP500 => None
  end.

(** What reaches the server: a POST request to one of the four routes, or a
    request to one of the three test endpoints, each with the clock readings
    and random draws it consumes. *)
Inductive Event : Type :=
  | post (r : App.Route) (data : option bytes) (clock0 clock : App.Reading)
  | reset
  | test_create (number : Z) (urandom : nat → bytes * bytes)
      (clock : nat → App.Reading)
  | test_add_many (data : option bytes) (urandom : nat → bytes)
      (clock : nat → App.Reading).

Section Serve.

Variable ParseFromString : bytes → option Request.

(** The state after an event. *)
Definition handle (st : App.State) (e : Event) : App.State :=
  match e with
  | post r data clock0 clock =>
      (App.route ParseFromString r data clock0 clock st).2
  | reset => (App.resetServer st).2
  | test_create number urandom clock =>
      (App.createUsers number urandom clock st).2
  | test_add_many data urandom clock =>
      (App.addUsers ParseFromString data urandom clock st).2
  end.

(** The state after a sequence of events, served one after the other. *)
Definition serve (events : list Event) (st : App.State) : App.State :=
  foldl handle st events.

(** The identifiers that a request body carries: none when the body is
    missing or not decodable. *)
Definition requested (data : option bytes) : list bytes :=
  match data with
  | None => []
  | Some body =>
      match ParseFromString body with
      | None => []
      | Some req => identifiers req
      end
  end.

End Serve.

(** The users of [s2_added] are in [s1], and the users of [s2_removed] are
    not. *)
Definition sets_consistent (st : App.State) : Prop :=
  (∀ u, is_Some (App.s2_added st !! u) → is_Some (App.s1 st !! u))
  ∧ (∀ u, is_Some (App.s2_removed st !! u) → App.s1 st !! u = None).

(** * Properties *)

(** ** Intersection with a list of identifiers *)

Section ContainedUsers.

Implicit Types (ids : list bytes) (x : bytes).

Lemma occurrences_cons x y ids :
  occurrences x (y :: ids)
  = if decide (x = y) then S (occurrences x ids) else occurrences x ids.
Proof. unfold occurrences. rewrite filter_cons. by case_decide. Qed.

Lemma occurrences_filter (P : bytes → Prop) `{!∀ y, Decision (P y)} ids x :
  occurrences x (filter P ids)
  = if decide (P x) then occurrences x ids else 0%nat.
Proof.
  induction ids as [|y ids IH]; [by case_decide|].
  rewrite filter_cons, occurrences_cons.
  destruct (decide (P y)) as [Hy|Hy]; rewrite ?occurrences_cons, IH;
    repeat case_decide; subst; done.
Qed.

Lemma filter_dom_intersection_of {V} (self : gmap bytes V) ids :
  intersection_of self ids (filter (λ x, x ∈ dom self) ids).
Proof.
  split_and!.
  - apply sublist_filter.
  - intros x. rewrite list_elem_of_filter, elem_of_dom. tauto.
  - intros x Hx. rewrite occurrences_filter.
    by rewrite decide_True by by apply elem_of_dom.
Qed.

Lemma occurrences_sublist x (l1 l2 : list bytes) :
  l1 `sublist_of` l2 → (occurrences x l1 ≤ occurrences x l2)%nat.
Proof.
  induction 1 as [|y l1 l2 _ IH|y l1 l2 _ IH]; [done| |];
    rewrite !occurrences_cons; case_decide; lia.
Qed.

Lemma occurrences_elem_of x ids : x ∈ ids ↔ (0 < occurrences x ids)%nat.
Proof.
  induction ids as [|y ids IH].
  { unfold occurrences. simpl. split; [by intros ?%elem_of_nil|lia]. }
  rewrite occurrences_cons, elem_of_cons, IH. case_decide; [|tauto].
  split; [lia|by left].
Qed.

(** The three facts leave one list only. *)
Lemma intersection_of_unique {V} (self : gmap bytes V) ids found :
  intersection_of self ids found →
  found = filter (λ x, x ∈ dom self) ids.
Proof.
  revert found. induction ids as [|y ids IH]; intros found (Hsub & Hin & Hocc).
  { by apply sublist_nil_r in Hsub. }
  rewrite filter_cons. destruct (decide (y ∈ dom self)) as [Hy|Hy].
  - apply elem_of_dom in Hy.
    apply sublist_cons_r in Hsub as [Hsub|(found' & -> & Hsub)].
    { pose proof (occurrences_sublist y _ _ Hsub) as Hle.
      specialize (Hocc y Hy). rewrite occurrences_cons in Hocc.
      rewrite decide_True in Hocc by done. lia. }
    f_equal. apply IH. split_and!; [done| |].
    + intros x. split.
      * intros Hx. split; [by eapply elem_of_sublist|].
        apply Hin. by right.
      * intros [Hx%occurrences_elem_of Hp]. apply occurrences_elem_of.
        specialize (Hocc x Hp). rewrite !occurrences_cons in Hocc.
        case_decide; lia.
    + intros x Hp. specialize (Hocc x Hp).
      rewrite !occurrences_cons in Hocc. case_decide; lia.
  - assert (y ∉ found) as Hnot.
    { intros Hf. apply Hin in Hf as [_ Hp]. by apply Hy, elem_of_dom. }
    apply sublist_cons_r in Hsub as [Hsub|(found' & -> & Hsub)];
      [|by destruct Hnot; left].
    apply IH. split_and!; [done| |].
    + intros x. split.
      * intros Hx. split; [by eapply elem_of_sublist|]. by apply Hin.
      * intros [Hx Hp]. apply Hin. split; [by right|done].
    + intros x Hp. specialize (Hocc x Hp). rewrite occurrences_cons in Hocc.
      case_decide as Hxy; [|done]. subst. by destruct Hy; apply elem_of_dom.
Qed.

(** C8: [containedUsers], of [UserSet] and of [ExpiringUserSet], returns the
    identifiers of its input whose key is in the dictionary, in the order of
    the input and with their repetitions, and no other list does; in an
    [ExpiringUserSet] an entry whose deadline has passed and that no
    [update] has removed yet counts as present. *)
Theorem C8_containedUsers_is_intersection :
  (∀ (self : gmap bytes bytes) ids,
     intersection_of self ids (UserSet.containedUsers self ids)
     ∧ ∀ found, intersection_of self ids found →
         found = UserSet.containedUsers self ids)
  ∧ (∀ (self : gmap bytes Z) ids,
       intersection_of self ids (ExpiringUserSet.containedUsers self ids)
       ∧ ∀ found, intersection_of self ids found →
           found = ExpiringUserSet.containedUsers self ids)
  ∧ (∀ (self : gmap bytes Z) ids x deadline now,
       self !! x = Some deadline → deadline ≤ now →
       occurrences x (ExpiringUserSet.containedUsers self ids)
       = occurrences x ids).
Proof.
  split_and!.
  - intros. split; [apply filter_dom_intersection_of|].
    apply intersection_of_unique.
  - intros. split; [apply filter_dom_intersection_of|].
    apply intersection_of_unique.
  - intros self ids x deadline now Hx _.
    by apply (filter_dom_intersection_of self ids).
Qed.

Lemma C8_containedUsers_witness :
  let self : gmap bytes Z := {[ Examples.alice := 5 ]} in
  let ids := [Examples.alice; Examples.bob; Examples.alice] in
  self !! Examples.alice = Some 5 ∧ 5 ≤ 10
  ∧ occurrences Examples.alice (ExpiringUserSet.containedUsers self ids)
    = occurrences Examples.alice ids.
Proof.
  intros self ids. split; [reflexivity|]. split; [lia|].
  apply (proj2 (proj2 C8_containedUsers_is_intersection)
           self ids Examples.alice 5 10); [reflexivity|lia].
Defined.

End ContainedUsers.

(** ** Sweep of an expiring set *)

Section Update.

Implicit Types (self : gmap bytes Z) (T : Z).

Lemma update_loop_filter self T :
  ExpiringUserSet.update_loop self T = filter (λ kv, kv.2 > T) self.
Proof.
  unfold ExpiringUserSet.update_loop.
  apply (map_fold_weak_ind (λ r m, r = filter (λ kv : bytes * Z, kv.2 > T) m)).
  - by rewrite map_filter_empty.
  - intros k v m r Hk ->. case_bool_decide as Hv.
    + by rewrite map_filter_insert_True.
    + rewrite map_filter_insert_not'; [done|done|]. by rewrite Hk.
Qed.

Lemma size_filter_split self T :
  size self
  = Nat.add (size (filter (λ kv, kv.2 > T) self))
            (size (filter (λ kv, kv.2 ≤ T) self)).
Proof.
  rewrite <-(map_filter_union_complement (λ kv : bytes * Z, kv.2 > T) self) at 1.
  rewrite map_size_disj_union by apply map_disjoint_filter_complement.
  f_equal. f_equal. apply map_filter_ext. intros k v _. simpl. lia.
Qed.

(** C7: [update] at time [T] keeps exactly the entries whose deadline is
    greater than [T], unchanged, removes the entries with deadline at most
    [T], and returns the number of entries it removed; every entry that
    remains has a deadline greater than [T]. *)
Theorem C7_update_removes_expired self T :
  let removed := (ExpiringUserSet.update self T).1 in
  let users := (ExpiringUserSet.update self T).2 in
  (∀ u d, users !! u = Some d ↔ self !! u = Some d ∧ d > T)
  ∧ (∀ u d, self !! u = Some d → d ≤ T → users !! u = None)
  ∧ removed = Z.of_nat (size (filter (λ kv, kv.2 ≤ T) self))
  ∧ removed = Z.of_nat (size self) - Z.of_nat (size users)
  ∧ (∀ u d, users !! u = Some d → d > T).
Proof.
  unfold ExpiringUserSet.update. rewrite update_loop_filter. simpl.
  split_and!.
  - intros u d. by rewrite map_lookup_filter_Some.
  - intros u d Hu Hd. apply map_lookup_filter_None. right.
    intros d' Hu'. simpl. simplify_eq. lia.
  - rewrite (size_filter_split self T) at 1. lia.
  - done.
  - intros u d [_ Hd]%map_lookup_filter_Some. done.
Qed.

End Update.


(** ** Leaky bucket *)

Section BucketRefusal.

Variables (C P : Z).

(** A refusal returns the dictionary it was given. *)
Lemma userCanSyncAmount_refusal (self users : Bucket.t) u k now :
  Bucket.userCanSyncAmount C P self u k now = Some (false, users) →
  users = self.
Proof.
  unfold Bucket.userCanSyncAmount.
  case_bool_decide; [by intros [= ->]|].
  destruct (int_truediv _ _) as [d|]; simpl.
  - destruct (self !! u) as [tau|]; [|done].
    repeat case_match; by intros [=].
  - destruct (self !! u) as [tau|]; [|done]. by case_match.
Qed.

(** The call raises exactly when [amount / self.leak_rate] is evaluated and
    raises: on an amount of at most [max_count] that [float] does not
    convert, or with a leak rate of zero. *)
Lemma userCanSyncAmount_raises (self : Bucket.t) u k now :
  Bucket.userCanSyncAmount C P self u k now = None
  ↔ k ≤ C ∧ int_truediv k (Bucket.leak_rate C P) = None.
Proof.
  unfold Bucket.userCanSyncAmount.
  case_bool_decide; [split; [done|lia]|].
  destruct (int_truediv _ _) as [d|]; simpl.
  - destruct (self !! u) as [tau|]; [|by split; [|intros []]].
    repeat case_match; by split; [|intros []].
  - destruct (self !! u) as [tau|]; [|split; [split; [lia|done]|done]].
    case_match; (split; [split; [lia|done]|done]).
Qed.

End BucketRefusal.

(** The two buckets of the application: the constructors return, and no
    number of identifiers that reaches [userCanSyncAmount] makes it raise. *)
Lemma initial_buckets :
  Bucket.__init__ App.max_contacts App.s2_delta
  = Some (App.s1_buckets App.initial)
  ∧ Bucket.__init__ App.max_contacts App.s2_period
    = Some (App.s2_buckets App.initial).
Proof. split; vm_compute; reflexivity. Qed.

Lemma float_raises_amount k :
  0 ≤ k ≤ App.max_contacts → float_raises k = false.
Proof.
  unfold App.max_contacts. intros Hk.
  assert (forallb (λ n, negb (float_raises (Z.of_nat n)))
            (seq 0 (Z.to_nat 20001)) = true) as Hall
    by (vm_compute; reflexivity).
  rewrite forallb_forall in Hall. specialize (Hall (Z.to_nat k)).
  rewrite Z2Nat.id in Hall by lia. apply negb_true_iff, Hall, in_seq. lia.
Qed.

Lemma userCanSyncAmount_returns (P : Z) (self : Bucket.t) u k now :
  P = App.s2_delta ∨ P = App.s2_period →
  0 ≤ k ≤ App.max_contacts →
  ∃ allowed users,
    Bucket.userCanSyncAmount App.max_contacts P self u k now
    = Some (allowed, users).
Proof.
  intros HP Hk.
  destruct (Bucket.userCanSyncAmount App.max_contacts P self u k now)
    as [[allowed users]|] eqn:Hcall; [by eauto|].
  apply userCanSyncAmount_raises in Hcall as [_ Hdiv].
  unfold int_truediv in Hdiv. rewrite float_raises_amount in Hdiv by done.
  by destruct HP as [-> | ->].
Qed.

Local Open Scope float_scope.

(** C3, two failing inputs.
    On [Bucket(11, 60)] the quotient [11 / leak_rate] is 60.00000000000001,
    above the drain period.  A bucket that is empty exactly at the time of
    the call (a timestamp equal to the time, here after a call for 0 at time
    0, with level 0) refuses the amount 11 and stores nothing, where the
    table has the write of [now + k/r] and the answer true; the same call is
    allowed for a user without entry and for a user whose timestamp is
    before the time, and stores that sum.
    On [Bucket(20000, 864000)], the full discovery bucket of the
    application, a call for 2 and a call for 19998 at the same time 0 ask
    for [max_count] together, so that the real sum of the fourth row is the
    horizon itself, not beyond it: the second call is refused, while one
    call for 20000 is allowed. *)
Theorem C3_userCanSyncAmount_drained_at_time :
  let u := Examples.alice in
  (let empty_now : Bucket.t := {[ u := 0 ]} in
   let written : Bucket.t := {[ u := 0x1.e000000000001p+5 ]} in
   Bucket.__init__ 11 60 = Some ∅
   ∧ Bucket.userCanSyncAmount 11 60 ∅ u 0 0 = Some (true, empty_now)
   ∧ (0 <=? 0) = true
   ∧ Bucket.currentSizeForUser 11 60 empty_now u 0 = Some 0%Z
   ∧ Bucket.userCanSyncAmount 11 60 empty_now u 11 0
     = Some (false, empty_now)
   ∧ int_truediv 11 (Bucket.leak_rate 11 60) = Some 0x1.e000000000001p+5
   ∧ Bucket.userCanSyncAmount 11 60 ∅ u 11 0 = Some (true, written)
   ∧ Bucket.userCanSyncAmount 11 60 {[ u := -1 ]} u 11 0
     = Some (true, written))
  ∧ (Bucket.__init__ 20000 864000 = Some ∅
     ∧ (2 + 19998 = 20000)%Z
     ∧ fst <$> BucketCalls.answers_at 20000 864000 ∅
                 [(u, 2%Z, 0); (u, 19998%Z, 0)]
       = Some [true; false]
     ∧ fst <$> BucketCalls.answers_at 20000 864000 ∅ [(u, 20000%Z, 0)]
       = Some [true]).
Proof. repeat split; vm_compute; reflexivity. Qed.

(** C6, two failing inputs.  The first call for a user, and the call for a
    user whose bucket has drained, store [time + amount / leak_rate] without
    the test against [time + drain_period] that the third branch makes.  On
    a new [Bucket(11, 60)] the call for 11 at time 0 stores
    60.00000000000001, beyond [0 + 60]; the third branch refuses the same
    sum for a user whose timestamp is 0.  On a new
    [Bucket(20000, 86400)], the incremental bucket of the application, the
    call for 20000 at time 60000.7 stores a timestamp that is more than the
    drain period after that time, and the level read at that time is
    20001, above [max_count]. *)
Theorem C6_timestamp_beyond_horizon :
  let u := Examples.alice in
  (let tau := 0x1.e000000000001p+5 in
   Bucket.__init__ 11 60 = Some ∅
   ∧ Bucket.userCanSyncAmount 11 60 ∅ u 11 0 = Some (true, {[ u := tau ]})
   ∧ (0 + Bucket.drain_period_f 60 <? tau) = true
   ∧ Bucket.userCanSyncAmount 11 60 {[ u := 0 ]} u 11 0
     = Some (false, {[ u := 0 ]}))
  ∧ (let now := 0x1.d4c1666666666p+15 in
     let tau := 0x1.1df059999999ap+17 in
     Bucket.__init__ 20000 86400 = Some ∅
     ∧ Bucket.userCanSyncAmount 20000 86400 ∅ u 20000 now
       = Some (true, {[ u := tau ]})
     ∧ (Bucket.drain_period_f 86400 <? tau - now) = true
     ∧ Bucket.currentSizeForUser 20000 86400 {[ u := tau ]} u now
       = Some 20001%Z).
Proof. repeat split; vm_compute; reflexivity. Qed.

Local Close Scope float_scope.

(** C1: on the bucket of 20000 units draining in 86400 seconds, a user
    admitted for 20000 units at time 1234 has level 0 at time 1234 + 86400,
    when the timestamp equals the time, and level 20000, the full capacity,
    one second later, when the timestamp has passed. *)
Theorem C1_currentSizeForUser_after_drain :
  ∃ new self,
    Bucket.__init__ 20000 86400 = Some new
    ∧ Bucket.userCanSyncAmount 20000 86400 new
        Examples.alice 20000 (float 1234) = Some (true, self)
    ∧ Bucket.currentSizeForUser 20000 86400 self Examples.alice
        (float (1234 + 86400)) = Some 0
    ∧ Bucket.currentSizeForUser 20000 86400 self Examples.alice
        (float (1234 + 86401)) = Some 20000.
Proof.
  eexists _, _. split; [reflexivity|]. split; [reflexivity|].
  split; vm_compute; reflexivity.
Qed.

(** ** Request handlers *)

Section AppFacts.

Import App.

Variable ParseFromString : bytes → option Request.

Implicit Types (st : State) (data : option bytes) (body : bytes)
  (req : Request) (clock : Reading).

Ltac run_handlers :=
  unfold fullDiscovery, incrementalDiscovery, registerUser, deleteUser,
    _catchRequestErrors, _fullDiscoveryWithErrors,
    _incrementalDiscoveryWithErrors, _registerUserWithErrors,
    _deleteUserWithErrors, _checkAuthenticationAndExtractIdentifiers,
    _checkAuthentication, _getDataFromRequest, _updateUserSets,
    s2_added_update, s2_removed_update, addNewUser, removeUser,
    s1_buckets_userCanSyncAmount, s2_buckets_userCanSyncAmount,
    mbind, mret, M_bind, M_ret, bind, ret, raise, gets, modify;
  simpl.

Lemma update_lookup (self : gmap bytes Z) (T : Z) u d :
  (ExpiringUserSet.update self T).2 !! u = Some d
  ↔ self !! u = Some d ∧ d > T.
Proof.
  unfold ExpiringUserSet.update. simpl.
  by rewrite update_loop_filter, map_lookup_filter_Some.
Qed.

(** The sweep: [s1] and the buckets stay, each expiring set is updated. *)
Lemma updateUserSets_state (clock : Reading) st :
  _updateUserSets clock st
  = (inr tt,
     mkState (s1 st)
       (ExpiringUserSet.update (s2_added st) (_time clock)).2
       (ExpiringUserSet.update (s2_removed st) (_time clock)).2
       (s1_buckets st) (s2_buckets st)).
Proof. done. Qed.

Ltac frame :=
  simpl; split_and!;
  first [done | by intros; apply update_lookup | by left | by right].

(** C10: a full or incremental discovery request, whatever the body and the
    reply, leaves [s1] as it was and each of [s2_added] and [s2_removed] with
    exactly its entries whose deadline is after the time of the sweep; the
    bucket of the other kind of request is as it was, and the bucket of the
    request is as it was unless the reply is SUCCESS. *)
Theorem C10_discovery_frame data (clock0 clock : Reading) st :
  let full := fullDiscovery ParseFromString data clock0 clock st in
  let inc := incrementalDiscovery ParseFromString data clock0 clock st in
  let swept (before after : gmap bytes Z) :=
    ∀ u d, after !! u = Some d ↔ before !! u = Some d ∧ d > _time clock0 in
  (s1 full.2 = s1 st
   ∧ swept (s2_added st) (s2_added full.2)
   ∧ swept (s2_removed st) (s2_removed full.2)
   ∧ s2_buckets full.2 = s2_buckets st
   ∧ (s1_buckets full.2 = s1_buckets st
      ∨ reply_result full.1 = Some SUCCESS))
  ∧ (s1 inc.2 = s1 st
     ∧ swept (s2_added st) (s2_added inc.2)
     ∧ swept (s2_removed st) (s2_removed inc.2)
     ∧ s1_buckets inc.2 = s1_buckets st
     ∧ (s2_buckets inc.2 = s2_buckets st
        ∨ reply_result inc.1 = Some SUCCESS)).
Proof.
  intros full inc swept. subst full inc swept.
  unfold fullDiscovery, incrementalDiscovery, _catchRequestErrors.
  rewrite updateUserSets_state.
  split.
  - unfold _fullDiscoveryWithErrors,
      _checkAuthenticationAndExtractIdentifiers, _checkAuthentication,
      _getDataFromRequest, s1_buckets_userCanSyncAmount,
      mbind, mret, M_bind, M_ret, bind, ret, raise, gets.
    destruct data as [body|]; simpl;
      [|frame].
    destruct (ParseFromString body) as [req|]; simpl;
      [|frame].
    destruct (UserSet.isValidUser _ _ _); simpl;
      [|frame].
    case_bool_decide; simpl; [frame|].
    case_bool_decide; simpl; [frame|].
    destruct (Bucket.userCanSyncAmount _ _ _ _ _ _)
      as [[[] users]|] eqn:Hbucket; simpl;
      [frame| |frame].
    apply userCanSyncAmount_refusal in Hbucket as ->.
    frame.
  - unfold _incrementalDiscoveryWithErrors,
      _checkAuthenticationAndExtractIdentifiers, _checkAuthentication,
      _getDataFromRequest, s2_buckets_userCanSyncAmount,
      mbind, mret, M_bind, M_ret, bind, ret, raise, gets.
    destruct data as [body|]; simpl;
      [|frame].
    destruct (ParseFromString body) as [req|]; simpl;
      [|frame].
    destruct (UserSet.isValidUser _ _ _); simpl;
      [|frame].
    case_bool_decide; simpl; [frame|].
    case_bool_decide; simpl; [frame|].
    destruct (Bucket.userCanSyncAmount _ _ _ _ _ _)
      as [[[] users]|] eqn:Hbucket; simpl;
      [frame| |frame].
    apply userCanSyncAmount_refusal in Hbucket as ->.
    frame.
Qed.

Lemma len_zero {A} (l : list A) : len l = 0 → l = [].
Proof. unfold len. destruct l; [done|]. simpl. lia. Qed.

(** The number of identifiers that reaches a bucket. *)
Lemma len_amount {A} (l : list A) :
  ¬ len l > max_contacts → 0 ≤ len l ≤ max_contacts.
Proof. unfold len. lia. Qed.

(** C5, as amended: for a decodable full or incremental discovery request:
    when the user and token are not valid the reply is
    AUTHENTICATION_INVALID and nothing but the sweep has happened, whatever
    the number of identifiers and the bucket.  When they are valid: a
    request without identifiers is answered SUCCESS with empty lists,
    whatever [userCanSyncAmount] would return; for a request with
    identifiers the reply is RATE_LIMIT_EXCEEDED exactly when there are more
    identifiers than [max_contacts] or [userCanSyncAmount] of the request's
    bucket returns false for their number, and otherwise the reply carries
    the intersection. *)
Theorem C5_authentication_then_rate_limit body req (clock0 clock : Reading)
    st :
  ParseFromString body = Some req →
  let u := user req in
  let ids := identifiers req in
  let full := fullDiscovery ParseFromString (Some body) clock0 clock st in
  let inc := incrementalDiscovery ParseFromString (Some body) clock0 clock st in
  let swept := (_updateUserSets clock0 st).2 in
  let full_refused :=
    len ids > max_contacts
    ∨ fst <$> Bucket.userCanSyncAmount max_contacts s2_delta
                (s1_buckets st) u (len ids) (seconds clock) = Some false in
  let inc_refused :=
    len ids > max_contacts
    ∨ fst <$> Bucket.userCanSyncAmount max_contacts s2_period
                (s2_buckets st) u (len ids) (seconds clock) = Some false in
  (UserSet.isValidUser (s1 st) u (auth_token req) = false →
   full = (HTTP200 (_makeErrorResponse AuthenticationError), swept)
   ∧ inc = (HTTP200 (_makeErrorResponse AuthenticationError), swept))
  ∧ (UserSet.isValidUser (s1 st) u (auth_token req) = true →
     (ids = [] →
      full.1 = HTTP200 (_makeResponse [] [])
      ∧ inc.1 = HTTP200 (_makeResponse [] []))
     ∧ (ids ≠ [] →
        (full.1 = HTTP200 (_makeErrorResponse RateLimitError)
         ↔ full_refused)
        ∧ (¬ full_refused →
           full.1 = HTTP200 (_makeResponse
                      (UserSet.containedUsers (s1 st) ids) []))
        ∧ (inc.1 = HTTP200 (_makeErrorResponse RateLimitError)
           ↔ inc_refused)
        ∧ (¬ inc_refused →
           inc.1 = HTTP200 (_makeResponse
                     (ExpiringUserSet.containedUsers (s2_added swept) ids)
                     (ExpiringUserSet.containedUsers (s2_removed swept)
                        ids))))).
Proof.
  intros Hparse u ids full inc swept full_refused inc_refused.
  subst full inc swept full_refused inc_refused.
  unfold fullDiscovery, incrementalDiscovery, _catchRequestErrors.
  rewrite updateUserSets_state.
  unfold _fullDiscoveryWithErrors, _incrementalDiscoveryWithErrors,
    _checkAuthenticationAndExtractIdentifiers, _checkAuthentication,
    _getDataFromRequest, s1_buckets_userCanSyncAmount,
    s2_buckets_userCanSyncAmount,
    mbind, mret, M_bind, M_ret, bind, ret, raise, gets.
  simpl. rewrite Hparse. simpl. fold u ids.
  split; intros ->; simpl; [done|].
  split.
  { intros ->. simpl. done. }
  intros Hids.
  case_bool_decide as Hmany; simpl.
  { split_and!; [by split; auto|by intros []; auto|by split; auto|
                 by intros []; auto]. }
  rewrite bool_decide_eq_false_2
    by (intros Hnone; by apply len_zero in Hnone).
  simpl.
  destruct (userCanSyncAmount_returns s2_delta (s1_buckets st) u (len ids)
              (seconds clock) (or_introl eq_refl) (len_amount _ Hmany))
    as (af & uf & ->).
  destruct (userCanSyncAmount_returns s2_period (s2_buckets st) u (len ids)
              (seconds clock) (or_intror eq_refl) (len_amount _ Hmany))
    as (ai & ui & ->).
  simpl. split_and!.
  - destruct af; simpl; [|by split; auto]. split; [done|].
    intros [?|?]; done.
  - destruct af; simpl; [done|]. intros []. by right.
  - destruct ai; simpl; [|by split; auto]. split; [done|].
    intros [?|?]; done.
  - destruct ai; simpl; [done|]. intros []. by right.
Qed.

(** C9: an authenticated full or incremental discovery request with no
    identifiers is answered with SUCCESS and empty lists, and leaves both
    bucket dictionaries as they were: the state after the request is the
    state after the sweep. *)
Theorem C9_empty_identifiers_skip_bucket body req (clock0 clock : Reading) st :
  ParseFromString body = Some req →
  identifiers req = [] →
  UserSet.isValidUser (s1 st) (user req) (auth_token req) = true →
  let full := fullDiscovery ParseFromString (Some body) clock0 clock st in
  let inc := incrementalDiscovery ParseFromString (Some body) clock0 clock st in
  full = (HTTP200 (_makeResponse [] []), (_updateUserSets clock0 st).2)
  ∧ s1_buckets full.2 = s1_buckets st ∧ s2_buckets full.2 = s2_buckets st
  ∧ inc = (HTTP200 (_makeResponse [] []), (_updateUserSets clock0 st).2)
  ∧ s1_buckets inc.2 = s1_buckets st ∧ s2_buckets inc.2 = s2_buckets st.
Proof.
  intros Hparse Hids Hvalid. run_handlers.
  rewrite Hparse, Hids. simpl. rewrite Hvalid. simpl.
  done.
Qed.

(** [removeUser] of either set is [delete], present or not. *)
Lemma UserSet_removeUser_delete (self : gmap bytes bytes) u :
  UserSet.removeUser self u = delete u self.
Proof.
  unfold UserSet.removeUser. case_bool_decide as Hu; [|done].
  apply not_elem_of_dom in Hu. by rewrite delete_id.
Qed.

Lemma ExpiringUserSet_removeUser_delete (self : gmap bytes Z) u :
  ExpiringUserSet.removeUser self u = delete u self.
Proof.
  unfold ExpiringUserSet.removeUser. case_bool_decide as Hu; [|done].
  apply not_elem_of_dom in Hu. by rewrite delete_id.
Qed.

(** C4, as amended: [addNewUser] followed by [removeUser] for the same user
    makes the pair valid in between and leaves [s1] as the earlier [s1]
    without the user, which is the earlier [s1] itself when the user was not
    in it; [s2_removed] holds the user at the time of the removal plus
    [s2_delta], and [s2_added] does not hold the user. *)
Theorem C4_register_unregister_round_trip u t (clock1 clock2 : Reading) st :
  let registered := (addNewUser u t clock1 st).2 in
  let st' := (removeUser u clock2 registered).2 in
  UserSet.isValidUser (s1 registered) u t = true
  ∧ s1 st' = delete u (s1 st)
  ∧ (s1 st !! u = None → s1 st' = s1 st)
  ∧ s2_removed st' !! u = Some (_time clock2 + s2_delta)
  ∧ s2_added st' !! u = None.
Proof.
  unfold addNewUser, removeUser, mbind, M_bind, bind, modify.
  simpl. rewrite UserSet_removeUser_delete, !ExpiringUserSet_removeUser_delete.
  unfold UserSet.isValidUser, UserSet.addUser, ExpiringUserSet.addUser.
  split_and!.
  - rewrite lookup_insert_eq. by apply bool_decide_eq_true_2.
  - apply delete_insert_eq.
  - intros Hu. by apply delete_insert_id.
  - by rewrite lookup_insert_eq.
  - by rewrite lookup_delete_eq.
Qed.

(** The round trip through the two entry points, sweeps included. *)
Lemma register_then_delete_requests body req (c0 c1 c2 c3 : Reading) st :
  ParseFromString body = Some req →
  s1 st !! user req = None →
  let registered := registerUser ParseFromString (Some body) c0 c1 st in
  let deleted := deleteUser ParseFromString (Some body) c2 c3 registered.2 in
  registered.1 = HTTP200 (_makeResponse [] [])
  ∧ deleted.1 = HTTP200 (_makeResponse [] [])
  ∧ s1 deleted.2 = s1 st
  ∧ s2_removed deleted.2 !! user req = Some (_time c3 + s2_delta)
  ∧ s2_added deleted.2 !! user req = None.
Proof.
  intros Hparse Hu.
  unfold registerUser, deleteUser, _catchRequestErrors.
  rewrite !updateUserSets_state.
  unfold _registerUserWithErrors, _deleteUserWithErrors,
    _checkAuthentication, _getDataFromRequest, addNewUser, removeUser,
    mbind, mret, M_bind, M_ret, bind, ret, raise, gets, modify.
  simpl. rewrite Hparse. simpl.
  unfold UserSet.isValidUser, UserSet.addUser. rewrite lookup_insert_eq.
  rewrite bool_decide_eq_true_2 by done. simpl.
  rewrite UserSet_removeUser_delete, !ExpiringUserSet_removeUser_delete.
  unfold ExpiringUserSet.addUser. split_and!; [done|done| | |].
  - by apply delete_insert_id.
  - by rewrite lookup_insert_eq.
  - by rewrite lookup_delete_eq.
Qed.

(** Every reply of the four entry points is a status 200: with the
    configured constants [userCanSyncAmount] does not raise. *)
Lemma route_replies r data (clock0 clock : Reading) st :
  ∃ response, (route ParseFromString r data clock0 clock st).1
              = HTTP200 response.
Proof.
  destruct r; simpl;
    unfold fullDiscovery, incrementalDiscovery, registerUser, deleteUser,
      _catchRequestErrors; rewrite updateUserSets_state;
    unfold _fullDiscoveryWithErrors, _incrementalDiscoveryWithErrors,
      _registerUserWithErrors, _deleteUserWithErrors,
      _checkAuthenticationAndExtractIdentifiers, _checkAuthentication,
      _getDataFromRequest, s1_buckets_userCanSyncAmount,
      s2_buckets_userCanSyncAmount, addNewUser, removeUser,
      mbind, mret, M_bind, M_ret, bind, ret, raise, gets, modify;
    (destruct data as [body|]; simpl; [|by eauto]);
    (destruct (ParseFromString body) as [req|]; simpl; [|by eauto]);
    try by eauto.
  - destruct (UserSet.isValidUser _ _ _); simpl; [|by eauto].
    case_bool_decide as Hmany; simpl; [by eauto|].
    case_bool_decide; simpl; [by eauto|].
    destruct (userCanSyncAmount_returns s2_delta (s1_buckets st) (user req)
                (len (identifiers req)) (seconds clock)
                (or_introl eq_refl) (len_amount _ Hmany))
      as ([] & users & ->); simpl; eauto.
  - destruct (UserSet.isValidUser _ _ _); simpl; [|by eauto].
    case_bool_decide as Hmany; simpl; [by eauto|].
    case_bool_decide; simpl; [by eauto|].
    destruct (userCanSyncAmount_returns s2_period (s2_buckets st) (user req)
                (len (identifiers req)) (seconds clock)
                (or_intror eq_refl) (len_amount _ Hmany))
      as ([] & users & ->); simpl; eauto.
  - destruct (UserSet.isValidUser _ _ _); simpl; eauto.
Qed.

(** What the four entry points answer, by the value of
    [request.get_data()]. *)
Lemma route_data_is_None r (clock0 clock : Reading) st :
  (route ParseFromString r None clock0 clock st).1
  = HTTP200 (_makeErrorResponse MissingDataError).
Proof. by destruct r. Qed.

(** A body that the decoder rejects is answered with the response of
    [InvalidDataError] by each of the four entry points. *)
Lemma route_data_not_decodable r body (clock0 clock : Reading) st :
  ParseFromString body = None →
  (route ParseFromString r (Some body) clock0 clock st).1
  = HTTP200 (_makeErrorResponse InvalidDataError).
Proof.
  intros Hparse. destruct r; simpl;
    unfold fullDiscovery, incrementalDiscovery, registerUser, deleteUser,
      _catchRequestErrors; rewrite updateUserSets_state;
    unfold _fullDiscoveryWithErrors, _incrementalDiscoveryWithErrors,
      _registerUserWithErrors, _deleteUserWithErrors,
      _checkAuthenticationAndExtractIdentifiers, _checkAuthentication,
      _getDataFromRequest, mbind, mret, M_bind, M_ret, bind, ret, raise;
    simpl; by rewrite Hparse.
Qed.

Lemma route_data_is_bytes r body (clock0 clock : Reading) st :
  reply_result (route ParseFromString r (Some body) clock0 clock st).1
  ≠ Some REQUEST_DATA_MISSING.
Proof.
  destruct r; simpl;
    unfold fullDiscovery, incrementalDiscovery, registerUser, deleteUser,
      _catchRequestErrors; rewrite updateUserSets_state;
    unfold _fullDiscoveryWithErrors, _incrementalDiscoveryWithErrors,
      _registerUserWithErrors, _deleteUserWithErrors,
      _checkAuthenticationAndExtractIdentifiers, _checkAuthentication,
      _getDataFromRequest, s1_buckets_userCanSyncAmount,
      s2_buckets_userCanSyncAmount, addNewUser, removeUser,
      mbind, mret, M_bind, M_ret, bind, ret, raise, gets, modify;
    (destruct (ParseFromString body) as [req|]; simpl; [|done]);
    try done.
  - destruct (UserSet.isValidUser _ _ _); simpl; [|done].
    repeat (case_bool_decide; simpl; [done|]).
    by destruct (Bucket.userCanSyncAmount _ _ _ _ _ _) as [[[] users]|].
  - destruct (UserSet.isValidUser _ _ _); simpl; [|done].
    repeat (case_bool_decide; simpl; [done|]).
    by destruct (Bucket.userCanSyncAmount _ _ _ _ _ _) as [[[] users]|].
  - by destruct (UserSet.isValidUser _ _ _).
Qed.

End AppFacts.

(** C2: [_getDataFromRequest] raises [MissingDataError] only when
    [request.get_data()] is [None].  A request whose body is a [bytes]
    value, the empty one included, is never answered REQUEST_DATA_MISSING by
    any of the four entry points, whatever the decoder; with the decoder of
    the wire format, a register request with the empty body is answered
    SUCCESS and binds the empty identifier to the empty token. *)
Theorem C2_empty_body_is_not_missing_data :
  (∀ ParseFromString r (clock0 clock : App.Reading) st,
     reply_result (App.route ParseFromString r (Some []) clock0 clock st).1
     ≠ Some REQUEST_DATA_MISSING)
  ∧ Request_ParseFromString [] = Some (mkRequest [] [] [])
  ∧ (let after :=
       App.registerUser Request_ParseFromString (Some [])
         Examples.t0 Examples.t0 App.initial in
     after.1 = App.HTTP200 (App._makeResponse [] [])
     ∧ App.s1 after.2 !! [] = Some []).
Proof.
  split; [|by split_and!].
  intros. apply route_data_is_bytes.
Qed.

(** C4, as the claim states it, fails for a user that is registered already:
    the pair of calls on [alice], in [s1] with the same token, leaves [s1]
    without [alice]. *)
Lemma C4_counterexample_registered_before :
  let st := App.set_s1 {[ Examples.alice := Examples.token ]} App.initial in
  let st' :=
    (App.removeUser Examples.alice Examples.t0
       (App.addNewUser Examples.alice Examples.token Examples.t0 st).2).2 in
  App.s1 st !! Examples.alice = Some Examples.token
  ∧ App.s1 st' !! Examples.alice = None.
Proof. split; reflexivity. Qed.

Lemma C4_round_trip_witness :
  let st := App.initial in
  let st' :=
    (App.removeUser Examples.alice Examples.t7
       (App.addNewUser Examples.alice Examples.token Examples.t5 st).2).2 in
  App.s1 st !! Examples.alice = None
  ∧ App.s1 st' = App.s1 st
  ∧ App.s2_removed st' !! Examples.alice = Some (7 + 864000).
Proof.
  intros st st'. split; [reflexivity|].
  destruct (C4_register_unregister_round_trip Examples.alice Examples.token
              Examples.t5 Examples.t7 st) as (_ & _ & Hs1 & Hremoved & _).
  split; [exact (Hs1 eq_refl)|exact Hremoved].
Defined.


(** ** The component tests of the repository, run on the embedding *)

Section ComponentTests.

Import Examples.

Local Abbreviation answers := (BucketCalls.answers_from 20000 86400 ∅).

Example test_user_set_add_remove :
  let mySet := UserSet.addUser UserSet.__init__ alice token in
  UserSet.isValidUser UserSet.__init__ alice token = false
  ∧ UserSet.userExists mySet alice = true
  ∧ UserSet.isValidUser mySet alice token = true
  ∧ UserSet.isValidUser mySet alice bob = false
  ∧ UserSet.userCount mySet = 1
  ∧ UserSet.userCount (UserSet.removeUser mySet alice) = 0.
Proof. by vm_compute. Qed.

(** [update] after the deadline of the first user and before that of the
    second: one entry is removed and the second user remains. *)
Example exp_set_update_set :
  let mySet :=
    ExpiringUserSet.addUser 86400
      (ExpiringUserSet.addUser 86400 ExpiringUserSet.__init__ alice 1234)
      bob 12345 in
  let updated := ExpiringUserSet.update mySet (1235 + 86400) in
  updated.1 = 1
  ∧ ExpiringUserSet.userCount updated.2 = 1
  ∧ ExpiringUserSet.containedUsers updated.2 [alice; bob] = [bob].
Proof. by vm_compute. Qed.

Example test_bucket_initial_too_large :
  fst <$> answers [(alice, 20001, 1234)] = Some [false].
Proof. by vm_compute. Qed.

Example test_bucket_sync_too_many :
  fst <$> answers [(alice, 20000, 1234); (alice, 20001, 100000)]
  = Some [true; false].
Proof. by vm_compute. Qed.

Example test_bucket_sync_too_fast :
  fst <$> answers [(alice, 10000, 1234); (alice, 10000, 1235);
                   (alice, 10000, 1236)]
  = Some [true; true; false]
  ∧ answers [(alice, 10000, 1234)]
      ≫= (λ r, Bucket.currentSizeForUser 20000 86400 r.2 alice (float 1234))
    = Some 10000.
Proof. by vm_compute. Qed.

Example test_bucket_sync_multiple :
  fst <$> answers
    [(alice, 10000, 0); (bob, 15000, 0); (carol, 20000, 0);
     (alice, 10000, 1000); (bob, 15000, 10000); (carol, 20000, 100000);
     (alice, 10000, 10000); (bob, 1000, 20000); (carol, 20000, 110000)]
  = Some [true; true; true; true; false; true; false; true; false].
Proof. by vm_compute. Qed.

Example test_bucket_clean :
  (λ r,
     let cleaned := Bucket.cleanUsers r.2 (float 50000) in
     (Bucket.userCount cleaned,
      fst <$> BucketCalls.answers_from 20000 86400 cleaned
                [(alice, 20000, 50000); (bob, 20000, 50000);
                 (carol, 15000, 50000)]))
    <$> answers [(alice, 10000, 0); (bob, 15000, 0); (carol, 20000, 0)]
  = Some (2, Some [true; false; false]).
Proof. by vm_compute. Qed.

(** The drain schedule of a full bucket, quarter by quarter of the period,
    and one second after the period. *)
Example bucket_drain_schedule :
  (λ r, (λ t, Bucket.currentSizeForUser 20000 86400 r.2 alice (float t))
          <$> [1234; 1234 + 21600; 1234 + 43200; 1234 + 64800;
               1234 + 86400; 1234 + 86401])
    <$> answers [(alice, 20000, 1234)]
  = Some [Some 20000; Some 15000; Some 10000; Some 5000; Some 0;
          Some 20000].
Proof. by vm_compute. Qed.

End ComponentTests.

(** ** Instances on concrete requests and buckets *)


(** The request of [alice] for the identifier [bob], both registered, on
    new buckets. *)
Lemma C5_discovery_witness :
  let st :=
    App.set_s1
      {[ Examples.alice := Examples.token; Examples.bob := Examples.token ]}
      App.initial in
  Request_ParseFromString Examples.body_alice_bob
  = Some (mkRequest Examples.alice Examples.token [Examples.bob])
  ∧ (App.fullDiscovery Request_ParseFromString (Some Examples.body_alice_bob)
       Examples.t1234 Examples.t1234 st).1
    = App.HTTP200 (App._makeResponse [Examples.bob] []).
Proof.
  intros st.
  assert (Request_ParseFromString Examples.body_alice_bob
          = Some (mkRequest Examples.alice Examples.token [Examples.bob]))
    as Hparse by reflexivity.
  split; [exact Hparse|].
  destruct (C5_authentication_then_rate_limit Request_ParseFromString
              Examples.body_alice_bob _ Examples.t1234 Examples.t1234 st
              Hparse)
    as (_ & Hvalid).
  destruct (Hvalid eq_refl) as (_ & Hsome).
  destruct (Hsome ltac:(discriminate)) as (_ & Hfound & _).
  apply Hfound. intros [Hmany|Hrefused]; [discriminate Hmany|].
  vm_compute in Hrefused. discriminate Hrefused.
Defined.

(** C5, as the claim states it, fails for a request without identifiers.
    [alice] asks for [bob] at the clock reading 1200000 and is answered
    SUCCESS; her next request, without identifiers, comes with the clock
    reading 0.  For the amount 0 at that time [userCanSyncAmount] of the
    full discovery bucket returns false, and the request is answered
    SUCCESS, not RATE_LIMIT_EXCEEDED. *)
Lemma C5_counterexample_no_identifiers :
  let st0 := App.set_s1 {[ Examples.alice := Examples.token ]} App.initial in
  let first :=
    App.fullDiscovery Request_ParseFromString (Some Examples.body_alice_bob)
      Examples.t1200000 Examples.t1200000 st0 in
  let st := first.2 in
  let second :=
    App.fullDiscovery Request_ParseFromString (Some Examples.body_alice)
      Examples.t0 Examples.t0 st in
  first.1 = App.HTTP200 (App._makeResponse [] [])
  ∧ Request_ParseFromString Examples.body_alice
    = Some (mkRequest Examples.alice Examples.token [])
  ∧ UserSet.isValidUser (App.s1 st) Examples.alice Examples.token = true
  ∧ fst <$> Bucket.userCanSyncAmount App.max_contacts App.s2_delta
              (App.s1_buckets st) Examples.alice (App.len ([] : list bytes))
              (App.seconds Examples.t0)
    = Some false
  ∧ second.1 = App.HTTP200 (App._makeResponse [] []).
Proof. repeat split; vm_compute; reflexivity. Qed.

Lemma C9_empty_identifiers_witness :
  let body : bytes :=
    [Byte.x0a; Byte.x01; Byte.x61; Byte.x12; Byte.x01; Byte.x74] in
  let st := App.set_s1 {[ Examples.alice := Examples.token ]} App.initial in
  Request_ParseFromString body
  = Some (mkRequest Examples.alice Examples.token [])
  ∧ App.fullDiscovery Request_ParseFromString (Some body)
      Examples.t1234 Examples.t1234 st
    = (App.HTTP200 (App._makeResponse [] []),
       (App._updateUserSets Examples.t1234 st).2)
  ∧ App.incrementalDiscovery Request_ParseFromString (Some body)
      Examples.t1234 Examples.t1234 st
    = (App.HTTP200 (App._makeResponse [] []),
       (App._updateUserSets Examples.t1234 st).2).
Proof.
  intros body st.
  assert (Request_ParseFromString body
          = Some (mkRequest Examples.alice Examples.token [])) as Hparse
    by reflexivity.
  split; [exact Hparse|].
  destruct (C9_empty_identifiers_skip_bucket Request_ParseFromString
              body _ Examples.t1234 Examples.t1234 st Hparse eq_refl eq_refl)
    as (Hfull & _ & _ & Hinc & _).
  split; [exact Hfull|exact Hinc].
Defined.

Lemma route_data_not_decodable_witness :
  Request_ParseFromString [Byte.x0a] = None
  ∧ (App.route Request_ParseFromString App.discovery_full (Some [Byte.x0a])
       Examples.t1234 Examples.t1234 App.initial).1
    = App.HTTP200 (App._makeErrorResponse InvalidDataError).
Proof.
  split; [reflexivity|].
  apply (route_data_not_decodable Request_ParseFromString
           App.discovery_full [Byte.x0a]). reflexivity.
Defined.

Lemma register_then_delete_witness :
  let body : bytes :=
    [Byte.x0a; Byte.x01; Byte.x61; Byte.x12; Byte.x01; Byte.x74] in
  let registered :=
    App.registerUser Request_ParseFromString (Some body)
      Examples.t10 Examples.t10 App.initial in
  let deleted :=
    App.deleteUser Request_ParseFromString (Some body)
      Examples.t20 Examples.t20 registered.2 in
  Request_ParseFromString body
  = Some (mkRequest Examples.alice Examples.token [])
  ∧ App.s1 App.initial !! Examples.alice = None
  ∧ deleted.1 = App.HTTP200 (App._makeResponse [] [])
  ∧ App.s1 deleted.2 = App.s1 App.initial
  ∧ App.s2_removed deleted.2 !! Examples.alice = Some (20 + 864000).
Proof.
  intros body registered deleted.
  assert (Request_ParseFromString body
          = Some (mkRequest Examples.alice Examples.token [])) as Hparse
    by reflexivity.
  split; [exact Hparse|]. split; [reflexivity|].
  destruct (register_then_delete_requests Request_ParseFromString body _
              Examples.t10 Examples.t10 Examples.t20 Examples.t20 App.initial
              Hparse eq_refl)
    as (_ & Hreply & Hs1 & Hremoved & _).
  split; [exact Hreply|]. split; [exact Hs1|exact Hremoved].
Defined.


(** * Further properties *)

(** ** The user set *)

Section UserSetFacts.

Implicit Types (self : gmap bytes bytes) (u v t : bytes) (ids : list bytes).

Lemma UserSet_userExists_true self u :
  UserSet.userExists self u = true ↔ is_Some (self !! u).
Proof.
  unfold UserSet.userExists.
  destruct (self !! u) as [t|]; split; [by eauto|done|done|by intros [? ?]].
Qed.

Lemma UserSet_isValidUser_true self u t :
  UserSet.isValidUser self u t = true ↔ self !! u = Some t.
Proof.
  unfold UserSet.isValidUser. destruct (self !! u) as [t'|]; [|done].
  rewrite bool_decide_eq_true. naive_solver.
Qed.

(** [addUser] binds the user to the given token and to no other, replacing
    an earlier token; it leaves every other user as it was, and the count
    grows by one exactly when the user was not in the set. *)
Theorem UserSet_addUser_binds self u t :
  let self' := UserSet.addUser self u t in
  (∀ t', UserSet.isValidUser self' u t' = true ↔ t' = t)
  ∧ UserSet.userExists self' u = true
  ∧ (∀ v t', v ≠ u →
       UserSet.isValidUser self' v t' = UserSet.isValidUser self v t'
       ∧ UserSet.userExists self' v = UserSet.userExists self v)
  ∧ UserSet.userCount self'
    = UserSet.userCount self
      + (if UserSet.userExists self u then 0 else 1).
Proof.
  unfold UserSet.addUser. simpl. split_and!.
  - intros t'. rewrite UserSet_isValidUser_true, lookup_insert_eq.
    naive_solver.
  - apply UserSet_userExists_true. rewrite lookup_insert_eq. by eauto.
  - intros v t' Hv.
    unfold UserSet.isValidUser, UserSet.userExists.
    by rewrite lookup_insert_ne.
  - unfold UserSet.userCount, UserSet.userExists. rewrite map_size_insert.
    destruct (self !! u); simpl; lia.
Qed.

(** [removeUser] makes every token of the user invalid, leaves every other
    user as it was, lowers the count by one exactly when the user was in the
    set, and changes nothing when repeated or when the user was not in the
    set. *)
Theorem UserSet_removeUser_unbinds self u :
  let self' := UserSet.removeUser self u in
  (∀ t, UserSet.isValidUser self' u t = false)
  ∧ UserSet.userExists self' u = false
  ∧ (∀ v t, v ≠ u →
       UserSet.isValidUser self' v t = UserSet.isValidUser self v t
       ∧ UserSet.userExists self' v = UserSet.userExists self v)
  ∧ UserSet.userCount self'
    = UserSet.userCount self
      - (if UserSet.userExists self u then 1 else 0)
  ∧ UserSet.removeUser self' u = self'
  ∧ (UserSet.userExists self u = false → self' = self).
Proof.
  simpl. rewrite !UserSet_removeUser_delete.
  unfold UserSet.isValidUser, UserSet.userExists, UserSet.userCount.
  split_and!.
  - intros t. by rewrite lookup_delete_eq.
  - by rewrite lookup_delete_eq.
  - intros v t Hv. by rewrite lookup_delete_ne.
  - rewrite map_size_delete. destruct (self !! u) eqn:Hu; simpl; [|lia].
    assert (size self ≠ 0%nat); [|lia].
    intros Hempty%map_size_empty_inv. by rewrite Hempty in Hu.
  - by rewrite delete_delete_eq.
  - intros Hu. apply delete_id. by destruct (self !! u).
Qed.

(** A user is in the set exactly when some token is valid for it, and then
    exactly one token is. *)
Theorem UserSet_userExists_iff_valid self u :
  (UserSet.userExists self u = true
   ↔ ∃ t, UserSet.isValidUser self u t = true)
  ∧ (∀ t t', UserSet.isValidUser self u t = true →
       UserSet.isValidUser self u t' = true → t = t').
Proof.
  split.
  - rewrite UserSet_userExists_true. unfold is_Some.
    by setoid_rewrite UserSet_isValidUser_true.
  - intros t t'. rewrite !UserSet_isValidUser_true. congruence.
Qed.

End UserSetFacts.

(** ** Intersection, continued *)

Section ContainedUsersFacts.

Implicit Types (ids : list bytes) (x u : bytes).

Lemma UserSet_userExists_false (self : gmap bytes bytes) u :
  UserSet.userExists self u = false ↔ self !! u = None.
Proof. unfold UserSet.userExists. by destruct (self !! u). Qed.

Lemma ExpiringUserSet_userExists_true (self : gmap bytes Z) u :
  ExpiringUserSet.userExists self u = true ↔ is_Some (self !! u).
Proof.
  unfold ExpiringUserSet.userExists.
  destruct (self !! u) as [t|]; split; [by eauto|done|done|by intros [? ?]].
Qed.

Lemma ExpiringUserSet_userExists_false (self : gmap bytes Z) u :
  ExpiringUserSet.userExists self u = false ↔ self !! u = None.
Proof. unfold ExpiringUserSet.userExists. by destruct (self !! u). Qed.

Lemma filter_dom_algebra {V} (self : gmap bytes V) ids ids' :
  let found l := filter (λ x, x ∈ dom self) l in
  found (found ids) = found ids
  ∧ found (ids ++ ids') = found ids ++ found ids'
  ∧ (length (found ids) ≤ length ids)%nat
  ∧ (found ids = ids ↔ ∀ x, x ∈ ids → is_Some (self !! x))
  ∧ (found ids = [] ↔ ∀ x, x ∈ ids → self !! x = None).
Proof.
  simpl. split_and!.
  - rewrite list_filter_filter. apply list_filter_iff. tauto.
  - apply filter_app.
  - apply length_filter.
  - setoid_rewrite <-elem_of_dom. induction ids as [|y ids IH].
    { split; [|done]. intros _ x Hx. by apply elem_of_nil in Hx. }
    rewrite filter_cons. destruct (decide (y ∈ dom self)) as [Hy|Hy].
    + split.
      * intros [= Heq] x [->|Hx]%elem_of_cons; [done|]. by apply IH.
      * intros Hall. f_equal. apply IH. intros x Hx. apply Hall. by right.
    + split.
      * intros Heq. pose proof (length_filter (λ x, x ∈ dom self) ids).
        apply (f_equal length) in Heq. simpl in Heq. lia.
      * intros Hall. destruct Hy. apply Hall. by left.
  - setoid_rewrite <-not_elem_of_dom. split.
    + intros Hnil x Hx Hp.
      by eapply (filter_nil_not_elem_of (λ x, x ∈ dom self)).
    + intros Hall. induction ids as [|y ids IH]; [done|].
      rewrite filter_cons_False by (apply Hall; by left).
      apply IH. intros x Hx. apply Hall. by right.
Qed.

(** [containedUsers] of either set: applied to its own result it returns
    it unchanged; it distributes over the concatenation of inputs; its
    result is never longer than the input; it returns the whole input
    exactly when every identifier is in the set, and the empty list exactly
    when none is. *)
Theorem containedUsers_algebra :
  (∀ (self : gmap bytes bytes) ids ids',
     let found := UserSet.containedUsers self in
     found (found ids) = found ids
     ∧ found (ids ++ ids') = found ids ++ found ids'
     ∧ (length (found ids) ≤ length ids)%nat
     ∧ (found ids = ids
        ↔ ∀ x, x ∈ ids → UserSet.userExists self x = true)
     ∧ (found ids = []
        ↔ ∀ x, x ∈ ids → UserSet.userExists self x = false))
  ∧ (∀ (self : gmap bytes Z) ids ids',
       let found := ExpiringUserSet.containedUsers self in
       found (found ids) = found ids
       ∧ found (ids ++ ids') = found ids ++ found ids'
       ∧ (length (found ids) ≤ length ids)%nat
       ∧ (found ids = ids
          ↔ ∀ x, x ∈ ids → ExpiringUserSet.userExists self x = true)
       ∧ (found ids = []
          ↔ ∀ x, x ∈ ids → ExpiringUserSet.userExists self x = false)).
Proof.
  split; intros self ids ids';
    destruct (filter_dom_algebra self ids ids') as (H1 & H2 & H3 & H4 & H5);
    (split_and!; [done|done|done| |]).
  - rewrite H4. by setoid_rewrite UserSet_userExists_true.
  - rewrite H5. by setoid_rewrite UserSet_userExists_false.
  - rewrite H4. by setoid_rewrite ExpiringUserSet_userExists_true.
  - rewrite H5. by setoid_rewrite ExpiringUserSet_userExists_false.
Qed.

End ContainedUsersFacts.

(** ** The expiring set *)

Section ExpiringUserSetFacts.

Variable expiration_time : Z.

Implicit Types (self : gmap bytes Z) (u v : bytes) (T : Z).

Local Abbreviation addUser := (ExpiringUserSet.addUser expiration_time).

Lemma update_users self T :
  (ExpiringUserSet.update self T).2 = filter (λ kv, kv.2 > T) self.
Proof. unfold ExpiringUserSet.update. simpl. apply update_loop_filter. Qed.

(** A user added at [time] is still in the set after a sweep at [T] exactly
    when [T] is before [time] plus the expiration time, whatever deadline
    the user had before; for the other users the sweep gives what it gives
    without the addition. *)
Theorem ExpiringUserSet_addUser_then_update self u (time T : Z) :
  let swept := (ExpiringUserSet.update (addUser self u time) T).2 in
  (ExpiringUserSet.userExists swept u = true ↔ T < time + expiration_time)
  ∧ ExpiringUserSet.containedUsers swept [u]
    = (if bool_decide (T < time + expiration_time) then [u] else [])
  ∧ (∀ v, v ≠ u →
       ExpiringUserSet.userExists swept v
       = ExpiringUserSet.userExists (ExpiringUserSet.update self T).2 v).
Proof.
  simpl. rewrite !update_loop_filter. unfold ExpiringUserSet.addUser.
  assert (filter (λ kv : bytes * Z, kv.2 > T)
            (<[u := time + expiration_time]> self) !! u
          = if bool_decide (T < time + expiration_time)
            then Some (time + expiration_time) else None) as Hu.
  { case_bool_decide.
    - apply map_lookup_filter_Some. rewrite lookup_insert_eq. simpl.
      split; [done|lia].
    - apply map_lookup_filter_None. right. intros d.
      rewrite lookup_insert_eq. intros [= <-]. simpl. lia. }
  split_and!.
  - rewrite ExpiringUserSet_userExists_true, Hu.
    case_bool_decide; split; [done|by eauto|by intros [? ?]|done].
  - unfold ExpiringUserSet.containedUsers.
    rewrite filter_cons, filter_nil.
    case_bool_decide.
    + rewrite decide_True; [done|]. apply elem_of_dom. rewrite Hu. by eauto.
    + rewrite decide_False; [done|]. by apply not_elem_of_dom.
  - intros v Hv. unfold ExpiringUserSet.userExists.
    rewrite !map_lookup_filter, lookup_insert_ne by done. done.
Qed.

(** Two sweeps in a row amount to one sweep at the later of the two times,
    and a sweep at a time no later than the previous one removes nothing. *)
Theorem ExpiringUserSet_update_twice self (T1 T2 : Z) :
  let first := (ExpiringUserSet.update self T1).2 in
  (ExpiringUserSet.update first T2).2
  = (ExpiringUserSet.update self (Z.max T1 T2)).2
  ∧ (T2 ≤ T1 → ExpiringUserSet.update first T2 = (0, first)).
Proof.
  simpl. split.
  - rewrite !update_loop_filter, map_filter_filter. apply map_filter_ext.
    intros k d _. simpl. lia.
  - intros Hle. unfold ExpiringUserSet.update.
    rewrite !update_loop_filter.
    set (first := filter (λ kv : bytes * Z, kv.2 > T1) self).
    assert (filter (λ kv : bytes * Z, kv.2 > T2) first = first) as ->.
    { apply map_filter_id.
      intros k d [_ Hd]%map_lookup_filter_Some. simpl in *. lia. }
    f_equal. lia.
Qed.

(** The number returned by a sweep is between 0 and the number of users,
    the number of users drops by it, and it is 0 exactly when the sweep
    leaves the set as it was. *)
Theorem ExpiringUserSet_update_count self T :
  let removed := (ExpiringUserSet.update self T).1 in
  let users := (ExpiringUserSet.update self T).2 in
  0 ≤ removed ≤ ExpiringUserSet.userCount self
  ∧ ExpiringUserSet.userCount users
    = ExpiringUserSet.userCount self - removed
  ∧ (removed = 0 ↔ users = self).
Proof.
  simpl. unfold ExpiringUserSet.userCount. rewrite update_loop_filter.
  pose proof (map_subseteq_size _ _
    (map_filter_subseteq (λ kv : bytes * Z, kv.2 > T) self)) as Hle.
  split_and!; [lia|lia|lia|].
  split.
  - intros Hzero. apply map_subseteq_size_eq; [apply map_filter_subseteq|].
    lia.
  - intros ->. lia.
Qed.

(** [addUser] and [removeUser] of the expiring set: membership, the count,
    and the other users. *)
Theorem ExpiringUserSet_add_remove self u (time : Z) :
  let added := addUser self u time in
  let removed := ExpiringUserSet.removeUser self u in
  ExpiringUserSet.userExists added u = true
  ∧ ExpiringUserSet.userCount added
    = ExpiringUserSet.userCount self
      + (if ExpiringUserSet.userExists self u then 0 else 1)
  ∧ ExpiringUserSet.userExists removed u = false
  ∧ ExpiringUserSet.userCount removed
    = ExpiringUserSet.userCount self
      - (if ExpiringUserSet.userExists self u then 1 else 0)
  ∧ ExpiringUserSet.removeUser removed u = removed
  ∧ ExpiringUserSet.removeUser added u = removed
  ∧ (∀ v, v ≠ u →
       ExpiringUserSet.userExists added v
       = ExpiringUserSet.userExists self v
       ∧ ExpiringUserSet.userExists removed v
         = ExpiringUserSet.userExists self v).
Proof.
  simpl. rewrite !ExpiringUserSet_removeUser_delete.
  unfold ExpiringUserSet.addUser, ExpiringUserSet.userExists,
    ExpiringUserSet.userCount.
  split_and!.
  - by rewrite lookup_insert_eq.
  - rewrite map_size_insert. destruct (self !! u); simpl; lia.
  - by rewrite lookup_delete_eq.
  - rewrite map_size_delete. destruct (self !! u) eqn:Hu; simpl; [|lia].
    assert (size self ≠ 0%nat); [|lia].
    intros Hempty%map_size_empty_inv. by rewrite Hempty in Hu.
  - by rewrite delete_delete_eq.
  - by rewrite delete_insert_eq.
  - intros v Hv. by rewrite lookup_insert_ne, lookup_delete_ne.
Qed.

End ExpiringUserSetFacts.

(** ** The leaky bucket, continued *)

Section BucketFrame.

Variables (C P : Z).

Implicit Types (self users : Bucket.t) (u v : bytes) (k : Z)
  (now tau : float64).

Lemma userCanSyncAmount_other_users self u k now allowed users v :
  Bucket.userCanSyncAmount C P self u k now = Some (allowed, users) →
  v ≠ u → users !! v = self !! v.
Proof.
  unfold Bucket.userCanSyncAmount. intros Hcall Hv.
  assert (∀ x, <[u := x]> self !! v = self !! v) as Hwrite
    by (intros x; by rewrite lookup_insert_ne).
  revert Hcall. case_bool_decide; [by intros [= <- <-]|].
  destruct (int_truediv _ _) as [d|]; simpl.
  - destruct (self !! u) as [tau|]; [|by intros [= <- <-]].
    repeat case_match; by intros [= <- <-].
  - destruct (self !! u) as [tau|]; [|done]. by case_match.
Qed.

(** [userCanSyncAmount] reads and writes the entry of its user only: every
    other entry is as before, an allowed call leaves an entry for the user,
    and the number of entries grows by one at most, only for a user that
    had none. *)
Theorem userCanSyncAmount_frame self u k now allowed users :
  Bucket.userCanSyncAmount C P self u k now = Some (allowed, users) →
  (∀ v, v ≠ u → users !! v = self !! v)
  ∧ (allowed = true → is_Some (users !! u))
  ∧ (allowed = false → users = self)
  ∧ Bucket.userCount self ≤ Bucket.userCount users
  ∧ Bucket.userCount users
    ≤ Bucket.userCount self + (if decide (is_Some (self !! u)) then 0 else 1).
Proof.
  unfold Bucket.userCanSyncAmount, Bucket.userCount.
  assert (∀ x, (∀ v, v ≠ u → <[u := x]> self !! v = self !! v)
               ∧ (true = true → is_Some (<[u := x]> self !! u))
               ∧ (true = false → <[u := x]> self = self)
               ∧ Z.of_nat (size self) ≤ Z.of_nat (size (<[u := x]> self))
               ∧ Z.of_nat (size (<[u := x]> self))
                 ≤ Z.of_nat (size self)
                   + (if decide (is_Some (self !! u)) then 0 else 1))
    as Hwrite.
  { intros x. split_and!.
    - intros v Hv. by rewrite lookup_insert_ne.
    - rewrite lookup_insert_eq. by eauto.
    - done.
    - rewrite map_size_insert. destruct (self !! u); simpl; lia.
    - rewrite map_size_insert. case_decide as Hs.
      + destruct Hs as [x' ->]. simpl. lia.
      + destruct (self !! u); [by destruct Hs; eauto|]. simpl. lia. }
  assert (∀ Q : Prop,
          (∀ v, v ≠ u → self !! v = self !! v)
          ∧ (false = true → Q)
          ∧ (false = false → self = self)
          ∧ Z.of_nat (size self) ≤ Z.of_nat (size self)
          ∧ Z.of_nat (size self)
            ≤ Z.of_nat (size self)
              + (if decide (is_Some (self !! u)) then 0 else 1))
    as Hkeep.
  { intros Q. split_and!; first [done | lia | case_decide; lia]. }
  set (extra := if decide (is_Some (self !! u)) then 0 else 1) in *.
  clearbody extra.
  case_bool_decide; [intros [= <- <-]; exact (Hkeep _)|].
  destruct (int_truediv _ _) as [d|]; simpl.
  - destruct (self !! u) as [tau|];
      [|intros [= <- <-]; exact (Hwrite _)].
    repeat case_match; intros [= <- <-];
      first [exact (Hwrite _) | exact (Hkeep _)].
  - destruct (self !! u) as [tau|]; [|done]. by case_match.
Qed.

End BucketFrame.

Lemma userCanSyncAmount_frame_witness :
  Bucket.userCanSyncAmount 20000 86400 ∅ Examples.alice 5 (float 0)
  = Some (true,
          <[Examples.alice :=
              (float 0 + float 5 / Bucket.leak_rate 20000 86400)%float]> ∅)
  ∧ Bucket.userCount (∅ : Bucket.t)
    ≤ Bucket.userCount
        (<[Examples.alice :=
             (float 0 + float 5 / Bucket.leak_rate 20000 86400)%float]>
           (∅ : Bucket.t)).
Proof.
  assert (Bucket.userCanSyncAmount 20000 86400 ∅ Examples.alice 5 (float 0)
          = Some (true,
                  <[Examples.alice :=
                      (float 0 + float 5 / Bucket.leak_rate 20000 86400)%float]>
                    ∅)) as Hcall by reflexivity.
  split; [exact Hcall|].
  exact (proj1 (proj2 (proj2 (proj2
           (userCanSyncAmount_frame _ _ _ _ _ _ _ _ Hcall))))).
Defined.
(** ** The request handlers, continued *)

Section HandlerFacts.

Import App.

Variable ParseFromString : bytes → option Request.

Implicit Types (st : State) (data : option bytes) (body : bytes)
  (req : Request) (u v t : bytes) (clock : Reading).

Ltac unfold_handlers :=
  unfold fullDiscovery, incrementalDiscovery, registerUser, deleteUser,
    _catchRequestErrors; rewrite ?updateUserSets_state;
  unfold _fullDiscoveryWithErrors, _incrementalDiscoveryWithErrors,
    _registerUserWithErrors, _deleteUserWithErrors,
    _checkAuthenticationAndExtractIdentifiers, _checkAuthentication,
    _getDataFromRequest, s1_buckets_userCanSyncAmount,
    s2_buckets_userCanSyncAmount, addNewUser, removeUser,
    mbind, mret, M_bind, M_ret, bind, ret, raise, gets, modify.

Lemma addNewUser_state u t clock st :
  addNewUser u t clock st
  = (inr tt,
     mkState (<[u := t]> (s1 st))
       (<[u := _time clock + s2_delta]> (s2_added st))
       (delete u (s2_removed st)) (s1_buckets st) (s2_buckets st)).
Proof.
  unfold addNewUser, mbind, M_bind, bind, modify. simpl.
  by rewrite ExpiringUserSet_removeUser_delete.
Qed.

Lemma removeUser_state u clock st :
  removeUser u clock st
  = (inr tt,
     mkState (delete u (s1 st)) (delete u (s2_added st))
       (<[u := _time clock + s2_delta]> (s2_removed st))
       (s1_buckets st) (s2_buckets st)).
Proof.
  unfold removeUser, mbind, M_bind, bind, modify. simpl.
  by rewrite UserSet_removeUser_delete, ExpiringUserSet_removeUser_delete.
Qed.

(** The two user management entry points, for a decodable body. *)
Lemma registerUser_run body req (clock0 clock : Reading) st :
  ParseFromString body = Some req →
  registerUser ParseFromString (Some body) clock0 clock st
  = (HTTP200 (_makeResponse [] []),
     (addNewUser (user req) (auth_token req) clock
        (_updateUserSets clock0 st).2).2).
Proof.
  intros Hparse.
  unfold registerUser, _catchRequestErrors, _registerUserWithErrors,
    _getDataFromRequest, addNewUser,
    mbind, mret, M_bind, M_ret, bind, ret, modify.
  by rewrite updateUserSets_state, Hparse.
Qed.

Lemma deleteUser_run body req (clock0 clock : Reading) st :
  ParseFromString body = Some req →
  deleteUser ParseFromString (Some body) clock0 clock st
  = if UserSet.isValidUser (s1 st) (user req) (auth_token req)
    then (HTTP200 (_makeResponse [] []),
          (removeUser (user req) clock (_updateUserSets clock0 st).2).2)
    else (HTTP200 (_makeErrorResponse AuthenticationError),
          (_updateUserSets clock0 st).2).
Proof.
  intros Hparse.
  unfold deleteUser, _catchRequestErrors, _deleteUserWithErrors,
    _checkAuthentication, _getDataFromRequest, removeUser,
    mbind, mret, M_bind, M_ret, bind, ret, raise, gets, modify.
  rewrite updateUserSets_state, Hparse. simpl.
  by destruct (UserSet.isValidUser _ _ _).
Qed.

(** A register request with a decodable body is answered SUCCESS whoever
    sends it and whatever the user was bound to: afterwards the token of the
    body, and no other, is valid for the user, the user is in [s2_added]
    with the time of the registration plus [s2_delta] and not in
    [s2_removed], and the other users of [s1] are as before. *)
Theorem registerUser_effect body req (clock0 clock : Reading) st :
  ParseFromString body = Some req →
  let after := registerUser ParseFromString (Some body) clock0 clock st in
  after.1 = HTTP200 (_makeResponse [] [])
  ∧ (∀ t, UserSet.isValidUser (s1 after.2) (user req) t = true
          ↔ t = auth_token req)
  ∧ s2_added after.2 !! user req = Some (_time clock + s2_delta)
  ∧ s2_removed after.2 !! user req = None
  ∧ (∀ v, v ≠ user req → s1 after.2 !! v = s1 st !! v).
Proof.
  intros Hparse. simpl. rewrite (registerUser_run _ _ _ _ _ Hparse).
  rewrite addNewUser_state, updateUserSets_state. simpl. split_and!.
  - done.
  - intros t. rewrite UserSet_isValidUser_true, lookup_insert_eq.
    naive_solver.
  - by rewrite lookup_insert_eq.
  - by rewrite lookup_delete_eq.
  - intros v Hv. by rewrite lookup_insert_ne.
Qed.

(** A delete request with a decodable body: when the token is not valid for
    the user the answer is AUTHENTICATION_INVALID and only the sweep has
    happened; when it is valid the answer is SUCCESS, no token is valid for
    the user any more, the user is in [s2_removed] with the time of the
    deletion plus [s2_delta] and not in [s2_added], and the other users of
    [s1] are as before. *)
Theorem deleteUser_effect body req (clock0 clock : Reading) st :
  ParseFromString body = Some req →
  let after := deleteUser ParseFromString (Some body) clock0 clock st in
  (UserSet.isValidUser (s1 st) (user req) (auth_token req) = false →
   after = (HTTP200 (_makeErrorResponse AuthenticationError),
            (_updateUserSets clock0 st).2))
  ∧ (UserSet.isValidUser (s1 st) (user req) (auth_token req) = true →
     after.1 = HTTP200 (_makeResponse [] [])
     ∧ (∀ t, UserSet.isValidUser (s1 after.2) (user req) t = false)
     ∧ s2_removed after.2 !! user req = Some (_time clock + s2_delta)
     ∧ s2_added after.2 !! user req = None
     ∧ (∀ v, v ≠ user req → s1 after.2 !! v = s1 st !! v)).
Proof.
  intros Hparse. simpl. rewrite (deleteUser_run _ _ _ _ _ Hparse).
  split; intros ->; [done|].
  rewrite removeUser_state, updateUserSets_state. simpl. split_and!.
  - done.
  - intros t. unfold UserSet.isValidUser. by rewrite lookup_delete_eq.
  - by rewrite lookup_insert_eq.
  - by rewrite lookup_delete_eq.
  - intros v Hv. by rewrite lookup_delete_ne.
Qed.

(** Whatever the route and the body, a reply other than SUCCESS means that
    nothing but the sweep has happened: a request that is refused, for
    missing or undecodable data, for its authentication or for the rate
    limit, changes neither a user set nor a bucket. *)
Theorem refused_request_only_sweeps r data (clock0 clock : Reading) st :
  let after := route ParseFromString r data clock0 clock st in
  reply_result after.1 = Some SUCCESS
  ∨ after.2 = (_updateUserSets clock0 st).2.
Proof.
  simpl. destruct r; simpl; unfold_handlers;
    (destruct data as [body|]; simpl; [|by right]);
    (destruct (ParseFromString body) as [req|]; simpl; [|by right]);
    try (by left).
  - destruct (UserSet.isValidUser _ _ _); simpl; [|by right].
    case_bool_decide; simpl; [by right|].
    case_bool_decide; simpl; [by left|].
    destruct (Bucket.userCanSyncAmount _ _ _ _ _ _)
      as [[[] users]|] eqn:Hbucket; simpl; [by left| |by right].
    apply userCanSyncAmount_refusal in Hbucket as ->. by right.
  - destruct (UserSet.isValidUser _ _ _); simpl; [|by right].
    case_bool_decide; simpl; [by right|].
    case_bool_decide; simpl; [by left|].
    destruct (Bucket.userCanSyncAmount _ _ _ _ _ _)
      as [[[] users]|] eqn:Hbucket; simpl; [by left| |by right].
    apply userCanSyncAmount_refusal in Hbucket as ->. by right.
  - destruct (UserSet.isValidUser _ _ _); simpl; [by left|by right].
Qed.

End HandlerFacts.

(** ** Loops of registrations *)

Lemma for_each_ext {A} (l : list A) (body body' : A → App.M unit) st :
  (∀ x st, body x st = body' x st) →
  App.for_each l body st = App.for_each l body' st.
Proof.
  intros Hext. revert st. induction l as [|x l IH]; intros st; [done|].
  cbn [App.for_each]. unfold mbind, App.M_bind, App.bind.
  rewrite Hext. destruct (body' x st) as [[e|[]] st']; [done|apply IH].
Qed.

Section RegistrationLoops.

Import App.

Context {A : Type} (entry : A → bytes * bytes * Reading).

Local Abbreviation usr x := (entry x).1.1.
Local Abbreviation tok x := (entry x).1.2.
Local Abbreviation clk x := (entry x).2.

Implicit Types (st : State) (l : list A).

Local Abbreviation step :=
  (λ st x, (addNewUser (usr x) (tok x) (clk x) st).2).

Lemma for_each_addNewUser l st :
  for_each l (λ x, addNewUser (usr x) (tok x) (clk x)) st
  = (inr tt, foldl step st l).
Proof.
  revert st. induction l as [|x l IH]; intros st; [done|].
  cbn [for_each foldl]. unfold mbind, M_bind, bind. cbv beta.
  rewrite addNewUser_state. by rewrite IH.
Qed.

Lemma registrations_state l st :
  let st' := foldl step st l in
  (∀ i x, l !! i = Some x →
     is_Some (s1 st' !! usr x) ∧ is_Some (s2_added st' !! usr x)
     ∧ s2_removed st' !! usr x = None)
  ∧ (∀ i x, l !! i = Some x →
       (∀ j y, (i < j)%nat → l !! j = Some y → usr y ≠ usr x) →
       s1 st' !! usr x = Some (tok x)
       ∧ s2_added st' !! usr x = Some (_time (clk x) + s2_delta))
  ∧ (∀ v, (∀ j y, l !! j = Some y → usr y ≠ v) →
       s1 st' !! v = s1 st !! v ∧ s2_added st' !! v = s2_added st !! v
       ∧ s2_removed st' !! v = s2_removed st !! v)
  ∧ s1_buckets st' = s1_buckets st ∧ s2_buckets st' = s2_buckets st
  ∧ (size (s1 st') ≤ size (s1 st) + length l)%nat
  ∧ (sets_consistent st → sets_consistent st').
Proof.
  cbv zeta. induction l as [|x l IH] using rev_ind.
  { simpl. split_and!; try done; try lia;
      intros i x Hx; by rewrite lookup_nil in Hx. }
  destruct IH as (Hin & Hlast & Hframe & Hb1 & Hb2 & Hsize & Hcons).
  rewrite foldl_snoc. cbv beta. rewrite addNewUser_state.
  set (st' := foldl step st l) in *. cbn [snd s1 s2_added s2_removed
    s1_buckets s2_buckets]. split_and!; [| | |done|done| |].
  - intros i y [[Hi Hy]|[-> ->]]%lookup_snoc_Some.
    + destruct (Hin i y Hy) as (H1 & H2 & H3).
      destruct (decide (usr x = usr y)) as [->|Hne].
      * rewrite !lookup_insert_eq, lookup_delete_eq. by eauto.
      * rewrite !lookup_insert_ne, lookup_delete_ne by done. done.
    + rewrite !lookup_insert_eq, lookup_delete_eq. by eauto.
  - intros i y [[Hi Hy]|[-> ->]]%lookup_snoc_Some Hlater.
    + assert (usr x ≠ usr y) as Hne.
      { apply (Hlater (length l)); [done|]. by apply list_lookup_middle. }
      rewrite !lookup_insert_ne by done. apply (Hlast i y Hy).
      intros j z Hij Hz. apply (Hlater j z Hij).
      by apply lookup_app_l_Some.
    + by rewrite !lookup_insert_eq.
  - intros v Hv.
    assert (usr x ≠ v) as Hne
      by (apply (Hv (length l)); by apply list_lookup_middle).
    rewrite !lookup_insert_ne, lookup_delete_ne by done.
    apply Hframe. intros j y Hy. apply (Hv j). by apply lookup_app_l_Some.
  - rewrite map_size_insert, length_app. simpl.
    destruct (s1 st' !! usr x); simpl; lia.
  - intros Hst. destruct (Hcons Hst) as [Hadded Hremoved].
    split; intros v; simpl.
    + destruct (decide (usr x = v)) as [<-|Hne].
      * rewrite !lookup_insert_eq. by eauto.
      * rewrite !lookup_insert_ne by done. apply Hadded.
    + destruct (decide (usr x = v)) as [<-|Hne].
      * rewrite lookup_delete_eq. by intros [? ?].
      * rewrite lookup_delete_ne, lookup_insert_ne by done. apply Hremoved.
Qed.

End RegistrationLoops.

(** ** Invariants of the served state *)
Section ServedState.

Import App.

Variable ParseFromString : bytes → option Request.

Implicit Types (st : State) (data : option bytes) (body : bytes)
  (req : Request) (u v t : bytes).

Ltac unfold_handlers :=
  unfold fullDiscovery, incrementalDiscovery, registerUser, deleteUser,
    _catchRequestErrors; rewrite ?updateUserSets_state;
  unfold _fullDiscoveryWithErrors, _incrementalDiscoveryWithErrors,
    _registerUserWithErrors, _deleteUserWithErrors,
    _checkAuthenticationAndExtractIdentifiers, _checkAuthentication,
    _getDataFromRequest, s1_buckets_userCanSyncAmount,
    s2_buckets_userCanSyncAmount, addNewUser, removeUser,
    mbind, mret, M_bind, M_ret, bind, ret, raise, gets, modify.

(** The state after a discovery request: the user sets are swept, and the
    bucket of the request is as it was or as an allowed call left it. *)
Lemma fullDiscovery_state data (clock0 clock : Reading) st :
  ∃ b, (fullDiscovery ParseFromString data clock0 clock st).2
       = mkState (s1 st)
           (ExpiringUserSet.update (s2_added st) (_time clock0)).2
           (ExpiringUserSet.update (s2_removed st) (_time clock0)).2
           b (s2_buckets st)
       ∧ (b = s1_buckets st
          ∨ ∃ u k, Bucket.userCanSyncAmount max_contacts s2_delta
                     (s1_buckets st) u k (seconds clock) = Some (true, b)).
Proof.
  unfold_handlers.
  destruct data as [body|]; simpl; [|by eauto].
  destruct (ParseFromString body) as [req|]; simpl; [|by eauto].
  destruct (UserSet.isValidUser _ _ _); simpl; [|by eauto].
  repeat (case_bool_decide; simpl; [by eauto|]).
  destruct (Bucket.userCanSyncAmount _ _ _ _ _ _)
    as [[[] users]|] eqn:Hbucket; simpl; [by eauto 10| |by eauto].
  apply userCanSyncAmount_refusal in Hbucket as ->. by eauto.
Qed.

Lemma incrementalDiscovery_state data (clock0 clock : Reading) st :
  ∃ b, (incrementalDiscovery ParseFromString data clock0 clock st).2
       = mkState (s1 st)
           (ExpiringUserSet.update (s2_added st) (_time clock0)).2
           (ExpiringUserSet.update (s2_removed st) (_time clock0)).2
           (s1_buckets st) b
       ∧ (b = s2_buckets st
          ∨ ∃ u k, Bucket.userCanSyncAmount max_contacts s2_period
                     (s2_buckets st) u k (seconds clock) = Some (true, b)).
Proof.
  unfold_handlers.
  destruct data as [body|]; simpl; [|by eauto].
  destruct (ParseFromString body) as [req|]; simpl; [|by eauto].
  destruct (UserSet.isValidUser _ _ _); simpl; [|by eauto].
  repeat (case_bool_decide; simpl; [by eauto|]).
  destruct (Bucket.userCanSyncAmount _ _ _ _ _ _)
    as [[[] users]|] eqn:Hbucket; simpl; [by eauto 10| |by eauto].
  apply userCanSyncAmount_refusal in Hbucket as ->. by eauto.
Qed.

(** The state after a user management request: swept, and then as
    [addNewUser] or [removeUser] left it, if it was called. *)
Lemma registerUser_state data (clock0 clock : Reading) st :
  let swept := (_updateUserSets clock0 st).2 in
  (registerUser ParseFromString data clock0 clock st).2 = swept
  ∨ ∃ u t, (registerUser ParseFromString data clock0 clock st).2
           = (addNewUser u t clock swept).2.
Proof.
  simpl. destruct data as [body|]; [|by left].
  destruct (ParseFromString body) as [req|] eqn:Hparse.
  - right. rewrite (registerUser_run _ _ _ _ _ _ Hparse). by eauto.
  - left. unfold_handlers. simpl. by rewrite Hparse.
Qed.

Lemma deleteUser_state data (clock0 clock : Reading) st :
  let swept := (_updateUserSets clock0 st).2 in
  (deleteUser ParseFromString data clock0 clock st).2 = swept
  ∨ ∃ u, (deleteUser ParseFromString data clock0 clock st).2
         = (removeUser u clock swept).2.
Proof.
  simpl. destruct data as [body|]; [|by left].
  destruct (ParseFromString body) as [req|] eqn:Hparse.
  - rewrite (deleteUser_run _ _ _ _ _ _ Hparse).
    destruct (UserSet.isValidUser _ _ _); [right|left]; by eauto.
  - left. unfold_handlers. simpl. by rewrite Hparse.
Qed.

Lemma sets_consistent_swept st (T : Z) b1 b2 :
  sets_consistent st →
  sets_consistent
    (mkState (s1 st) (ExpiringUserSet.update (s2_added st) T).2
       (ExpiringUserSet.update (s2_removed st) T).2 b1 b2).
Proof.
  intros [Hadded Hremoved]. split; intros u; simpl;
    rewrite update_loop_filter; intros [d [Hd _]%map_lookup_filter_Some].
  - apply Hadded. by eauto.
  - apply Hremoved. by eauto.
Qed.

Lemma sets_consistent_addNewUser u t (clock : Reading) st :
  sets_consistent st → sets_consistent (addNewUser u t clock st).2.
Proof.
  intros [Hadded Hremoved]. rewrite addNewUser_state.
  split; intros v; simpl.
  - destruct (decide (u = v)) as [<-|Hne].
    + rewrite !lookup_insert_eq. by eauto.
    + rewrite !lookup_insert_ne by done. apply Hadded.
  - destruct (decide (u = v)) as [<-|Hne].
    + rewrite lookup_delete_eq. by intros [? ?].
    + rewrite lookup_delete_ne, lookup_insert_ne by done. apply Hremoved.
Qed.

Lemma sets_consistent_removeUser u (clock : Reading) st :
  sets_consistent st → sets_consistent (removeUser u clock st).2.
Proof.
  intros [Hadded Hremoved]. rewrite removeUser_state.
  split; intros v; simpl.
  - destruct (decide (u = v)) as [<-|Hne].
    + rewrite lookup_delete_eq. by intros [? ?].
    + rewrite !lookup_delete_ne by done. apply Hadded.
  - destruct (decide (u = v)) as [<-|Hne].
    + by rewrite lookup_delete_eq.
    + rewrite lookup_insert_ne, lookup_delete_ne by done. apply Hremoved.
Qed.

Lemma createUsers_state (number : Z) urandom (clock : nat → Reading) st :
  createUsers number urandom clock st
  = if bool_decide (number > 10000000) then (Some Too_many, st)
    else (Some Success,
          foldl (λ st i,
                   (addNewUser (urandom i).1 (urandom i).2 (clock i) st).2)
            st (seq 0 (Z.to_nat number))).
Proof.
  unfold createUsers. case_bool_decide; [done|].
  by rewrite (for_each_addNewUser (λ i, (urandom i, clock i))).
Qed.

Lemma addUsers_state data (urandom : nat → bytes) (clock : nat → Reading) st :
  addUsers ParseFromString data urandom clock st
  = match data with
    | None => (HTTP500, st)
    | Some body =>
        match ParseFromString body with
        | None => (HTTP500, st)
        | Some req =>
            (HTTP200 (_makeResponse [] []),
             foldl (λ st p,
                      (addNewUser p.2 (urandom p.1) (clock p.1) st).2)
               st (imap (λ i id, (i, id)) (identifiers req)))
        end
    end.
Proof.
  unfold addUsers, _getDataFromRequest, mbind, mret, M_bind, M_ret, bind,
    ret, raise.
  destruct data as [body|]; [|done].
  destruct (ParseFromString body) as [req|]; [|done].
  rewrite (for_each_ext _ _
             (λ p : nat * bytes, addNewUser p.2 (urandom p.1) (clock p.1)))
    by by intros [i id].
  by rewrite (for_each_addNewUser
                (λ p : nat * bytes, (p.2, urandom p.1, clock p.1))).
Qed.

Lemma handle_sets_consistent st e :
  sets_consistent st → sets_consistent (handle ParseFromString st e).
Proof.
  intros Hst. destruct e as [r data clock0 clock| |number urandom clock
                            |data urandom clock]; simpl.
  - destruct r; simpl.
    + destruct (fullDiscovery_state data clock0 clock st) as (b & -> & _).
      by apply sets_consistent_swept.
    + destruct (incrementalDiscovery_state data clock0 clock st)
        as (b & -> & _).
      by apply sets_consistent_swept.
    + destruct (registerUser_state data clock0 clock st)
        as [->|(u & t & ->)]; rewrite updateUserSets_state;
        [|apply sets_consistent_addNewUser];
        by apply sets_consistent_swept.
    + destruct (deleteUser_state data clock0 clock st)
        as [->|(u & ->)]; rewrite updateUserSets_state;
        [|apply sets_consistent_removeUser];
        by apply sets_consistent_swept.
  - split; intros u; simpl; by intros [? ?].
  - rewrite createUsers_state. case_bool_decide; simpl; [done|].
    by apply (registrations_state (λ i, (urandom i, clock i))).
  - rewrite addUsers_state. destruct data as [body|]; [|done].
    destruct (ParseFromString body) as [req|]; [|done]. simpl.
    by apply (registrations_state
                (λ p : nat * bytes, (p.2, urandom p.1, clock p.1))).
Qed.

(** After every sequence of requests served from the initial state, the
    users of [s2_added] are registered and the users of [s2_removed] are
    not; in particular no user is in both. *)
Theorem serve_sets_consistent events :
  let st := serve ParseFromString events initial in
  sets_consistent st
  ∧ ∀ u, is_Some (s2_added st !! u) → s2_removed st !! u = None.
Proof.
  simpl.
  assert (∀ st, sets_consistent st →
            sets_consistent (serve ParseFromString events st)) as Hserve.
  { unfold serve. induction events as [|e events IH]; intros st Hst;
      [done|].
    simpl. by apply IH, handle_sets_consistent. }
  assert (sets_consistent initial) as Hinit
    by (split; intros u; simpl; by intros [? ?]).
  specialize (Hserve _ Hinit). split; [done|].
  destruct Hserve as [Hadded Hremoved]. intros u Hu.
  destruct (s2_removed _ !! u) eqn:Hr; [|done].
  specialize (Hadded u Hu). rewrite Hremoved in Hadded by eauto.
  by destruct Hadded.
Qed.

(** The lists of a reply hold identifiers of the request only, in their
    order: both are sublists of the identifiers of the body.  A reply
    other than SUCCESS has empty lists, only an incremental discovery
    reply has removed users, and the replies to register and delete
    requests have empty lists. *)
Theorem replies_only_requested r data (clock0 clock : Reading) st :
  match (route ParseFromString r data clock0 clock st).1 with
  | HTTP200 response =>
      added_users response `sublist_of` requested ParseFromString data
      ∧ removed_users response `sublist_of` requested ParseFromString data
      ∧ (result response ≠ SUCCESS →
         added_users response = [] ∧ removed_users response = [])
      ∧ (r ≠ discovery_incremental → removed_users response = [])
      ∧ (r = user_register ∨ r = user_delete → added_users response = [])
  | HTTP500 => True
  end.
Proof.
  assert (∀ (l : list bytes) (res : Result),
            [] `sublist_of` l ∧ [] `sublist_of` l
            ∧ (res ≠ SUCCESS → @nil bytes = [] ∧ @nil bytes = [])
            ∧ (r ≠ discovery_incremental → @nil bytes = [])
            ∧ (r = user_register ∨ r = user_delete → @nil bytes = []))
    as Hempty by (intros; split_and!; auto using sublist_nil_l).
  unfold requested.
  destruct r; simpl; unfold_handlers;
    (destruct data as [body|]; simpl; [|by apply Hempty]);
    (destruct (ParseFromString body) as [req|]; simpl;
       [|by apply Hempty]);
    try (by apply Hempty).
  - destruct (UserSet.isValidUser _ _ _); simpl; [|by apply Hempty].
    case_bool_decide; simpl; [by apply Hempty|].
    case_bool_decide; simpl; [by apply Hempty|].
    destruct (Bucket.userCanSyncAmount _ _ _ _ _ _)
      as [[[] users]|]; simpl; [|by apply Hempty|done].
    split_and!; [apply sublist_filter|apply sublist_nil_l|done|done|].
    by intros [?|?].
  - destruct (UserSet.isValidUser _ _ _); simpl; [|by apply Hempty].
    case_bool_decide; simpl; [by apply Hempty|].
    case_bool_decide; simpl; [by apply Hempty|].
    destruct (Bucket.userCanSyncAmount _ _ _ _ _ _)
      as [[[] users]|]; simpl; [|by apply Hempty|done].
    split_and!; [apply sublist_filter|apply sublist_filter|done|done|].
    by intros [?|?].
  - destruct (UserSet.isValidUser _ _ _); simpl;
      [by apply Hempty|by apply Hempty].
Qed.

(** The users that an incremental discovery reply reports are those of the
    delta sets whose deadline is after the time of the sweep; when the
    user sets are consistent, the added users are registered and not among
    the removed ones, and the removed users are not registered. *)
Theorem incremental_reply_in_window data (clock0 clock : Reading) st response :
  (incrementalDiscovery ParseFromString data clock0 clock st).1
  = HTTP200 response →
  (∀ x, x ∈ added_users response →
     ∃ d, s2_added st !! x = Some d ∧ _time clock0 < d)
  ∧ (∀ x, x ∈ removed_users response →
       ∃ d, s2_removed st !! x = Some d ∧ _time clock0 < d)
  ∧ (sets_consistent st →
     (∀ x, x ∈ added_users response →
        UserSet.userExists (s1 st) x = true
        ∧ x ∉ removed_users response)
     ∧ (∀ x, x ∈ removed_users response →
          UserSet.userExists (s1 st) x = false)).
Proof.
  intros Hreply.
  assert ((∀ x, x ∈ added_users response →
             ∃ d, s2_added st !! x = Some d ∧ _time clock0 < d)
          ∧ (∀ x, x ∈ removed_users response →
               ∃ d, s2_removed st !! x = Some d ∧ _time clock0 < d))
    as [Hadded Hremoved].
  { assert (∀ (self : gmap bytes Z) ids x,
              x ∈ ExpiringUserSet.containedUsers
                    (ExpiringUserSet.update_loop self (_time clock0)) ids →
              ∃ d, self !! x = Some d ∧ _time clock0 < d) as Hfound.
    { intros self ids x [[d Hd]%elem_of_dom _]%list_elem_of_filter.
      rewrite update_loop_filter in Hd.
      apply map_lookup_filter_Some in Hd as [Hd Hlt]. simpl in Hlt.
      exists d. split; [done|lia]. }
    assert (∀ x, x ∈ @nil bytes → False) as Hnil
      by (intros x Hx; by apply elem_of_nil in Hx).
    revert Hreply. unfold_handlers.
    destruct data as [body|]; simpl;
      [|intros [= <-]; split; intros x Hx; by destruct (Hnil x)].
    destruct (ParseFromString body) as [req|]; simpl;
      [|intros [= <-]; split; intros x Hx; by destruct (Hnil x)].
    destruct (UserSet.isValidUser _ _ _); simpl;
      [|intros [= <-]; split; intros x Hx; by destruct (Hnil x)].
    repeat (case_bool_decide; simpl;
      [intros [= <-]; split; intros x Hx; by destruct (Hnil x)|]).
    destruct (Bucket.userCanSyncAmount _ _ _ _ _ _)
      as [[[] users]|]; simpl;
      [|intros [= <-]; split; intros x Hx; by destruct (Hnil x)|done].
    intros [= <-]. simpl. split; intros x Hx; by eapply Hfound. }
  split_and!; [done|done|].
  intros [Hin Hout]. split.
  - intros x Hx. destruct (Hadded x Hx) as (d & Hd & _).
    assert (is_Some (s1 st !! x)) as Hs1 by (apply Hin; by eauto).
    split; [by apply UserSet_userExists_true|].
    intros Hx'. destruct (Hremoved x Hx') as (d' & Hd' & _).
    rewrite Hout in Hs1 by eauto. by destruct Hs1.
  - intros x Hx. destruct (Hremoved x Hx) as (d & Hd & _).
    apply UserSet_userExists_false, Hout. by eauto.
Qed.

(** User management never touches a bucket: the register and delete entry
    points and the two test endpoints that add users leave both bucket
    dictionaries as they were, so that deleting and registering a user
    again gives the user no new allowance. *)
Theorem user_management_keeps_buckets st :
  let buckets st := (s1_buckets st, s2_buckets st) in
  (∀ data (clock0 clock : Reading),
     buckets (registerUser ParseFromString data clock0 clock st).2
     = buckets st
     ∧ buckets (deleteUser ParseFromString data clock0 clock st).2
       = buckets st)
  ∧ (∀ number urandom (clock : nat → Reading),
       buckets (createUsers number urandom clock st).2 = buckets st)
  ∧ (∀ data urandom (clock : nat → Reading),
       buckets (addUsers ParseFromString data urandom clock st).2
       = buckets st).
Proof.
  simpl. split_and!.
  - intros data clock0 clock. split.
    + by destruct (registerUser_state data clock0 clock st)
        as [->|(u & t & ->)]; rewrite ?addNewUser_state,
        updateUserSets_state.
    + by destruct (deleteUser_state data clock0 clock st)
        as [->|(u & ->)]; rewrite ?removeUser_state, updateUserSets_state.
  - intros number urandom clock. rewrite createUsers_state.
    case_bool_decide; simpl; [done|].
    destruct (registrations_state (λ i, (urandom i, clock i))
                (seq 0 (Z.to_nat number)) st)
      as (_ & _ & _ & Hb1 & Hb2 & _).
    f_equal; [apply Hb1|apply Hb2].
  - intros data urandom clock. rewrite addUsers_state.
    destruct data as [body|]; [|done].
    destruct (ParseFromString body) as [req|]; [|done]. simpl.
    destruct (registrations_state
                (λ p : nat * bytes, (p.2, urandom p.1, clock p.1))
                (imap (λ i id, (i, id)) (identifiers req)) st)
      as (_ & _ & _ & Hb1 & Hb2 & _).
    f_equal; [apply Hb1|apply Hb2].
Qed.

End ServedState.

(** ** The test endpoints *)

Section TestEndpoints.

Import App.

Variable ParseFromString : bytes → option Request.

Ltac unfold_handlers :=
  unfold fullDiscovery, incrementalDiscovery, registerUser, deleteUser,
    _catchRequestErrors; rewrite ?updateUserSets_state;
  unfold _fullDiscoveryWithErrors, _incrementalDiscoveryWithErrors,
    _registerUserWithErrors, _deleteUserWithErrors,
    _checkAuthenticationAndExtractIdentifiers, _checkAuthentication,
    _getDataFromRequest, s1_buckets_userCanSyncAmount,
    s2_buckets_userCanSyncAmount, addNewUser, removeUser,
    mbind, mret, M_bind, M_ret, bind, ret, raise, gets, modify.

Lemma update_loop_empty (T : Z) : ExpiringUserSet.update_loop ∅ T = ∅.
Proof. by rewrite update_loop_filter, map_filter_empty. Qed.

(** A reset gives the initial state, whatever the state was; and in the
    initial state every request other than a registration is refused and
    leaves the state as it is. *)
Theorem resetServer_forgets st :
  resetServer st = (Success, initial)
  ∧ ∀ r data (clock0 clock : Reading),
      r ≠ user_register →
      reply_result (route ParseFromString r data clock0 clock initial).1
      ≠ Some SUCCESS
      ∧ (route ParseFromString r data clock0 clock initial).2 = initial.
Proof.
  split; [done|]. intros r data clock0 clock Hr.
  destruct r; [| |done|]; simpl; unfold_handlers; simpl;
    rewrite !update_loop_empty;
    (destruct data as [body|]; simpl; [|done]);
    by (destruct (ParseFromString body) as [req|]; simpl).
Qed.

(** [createUsers]: more than 10 000 000 is answered ["Too many"] with the
    state as it was.  Otherwise the answer is ["Success"]; every drawn user
    is registered, in [s2_added] and not in [s2_removed]; a user drawn in
    iteration [i] and in no later one is bound to the token and the
    deadline of iteration [i]; the users that were not drawn are as
    before; and the number of users grows by at most [number]. *)
Theorem createUsers_effect (number : Z) urandom (clock : nat → Reading) st :
  let after := createUsers number urandom clock st in
  let drawn i := (i < Z.to_nat number)%nat in
  (number > 10000000 → after = (Some Too_many, st))
  ∧ (number ≤ 10000000 →
     after.1 = Some Success
     ∧ (∀ i, drawn i →
          UserSet.userExists (s1 after.2) (urandom i).1 = true
          ∧ ExpiringUserSet.userExists (s2_added after.2) (urandom i).1
            = true
          ∧ ExpiringUserSet.userExists (s2_removed after.2) (urandom i).1
            = false)
     ∧ (∀ i, drawn i →
          (∀ j, (i < j)%nat → drawn j → (urandom j).1 ≠ (urandom i).1) →
          UserSet.isValidUser (s1 after.2) (urandom i).1 (urandom i).2
          = true
          ∧ s2_added after.2 !! (urandom i).1
            = Some (_time (clock i) + s2_delta))
     ∧ (∀ v, (∀ j, drawn j → (urandom j).1 ≠ v) →
          s1 after.2 !! v = s1 st !! v
          ∧ s2_added after.2 !! v = s2_added st !! v
          ∧ s2_removed after.2 !! v = s2_removed st !! v)
     ∧ UserSet.userCount (s1 after.2)
       ≤ UserSet.userCount (s1 st) + Z.max 0 number).
Proof.
  cbv zeta. rewrite createUsers_state. split.
  { intros Hmany. by rewrite bool_decide_eq_true_2. }
  intros Hfew. rewrite bool_decide_eq_false_2 by lia. simpl.
  destruct (registrations_state (λ i, (urandom i, clock i))
              (seq 0 (Z.to_nat number)) st)
    as (Hin & Hlast & Hframe & _ & _ & Hsize & _).
  simpl in Hin, Hlast, Hframe, Hsize.
  assert (∀ i x, seq 0 (Z.to_nat number) !! i = Some x
                 ↔ x = i ∧ (i < Z.to_nat number)%nat) as Hseq
    by (intros i x; by rewrite lookup_seq).
  split_and!; [done| | | |].
  - intros i Hi. destruct (Hin i i) as (H1 & H2 & H3); [by apply Hseq|].
    by rewrite UserSet_userExists_true, ExpiringUserSet_userExists_true,
      ExpiringUserSet_userExists_false.
  - intros i Hi Hlater. rewrite UserSet_isValidUser_true.
    apply (Hlast i i); [by apply Hseq|].
    intros j y Hij [-> Hj]%Hseq. by apply Hlater.
  - intros v Hv. apply Hframe. intros j y [-> Hj]%Hseq. by apply Hv.
  - unfold UserSet.userCount. rewrite length_seq in Hsize. lia.
Qed.

(** [addUsers] is outside the error handling of the four routes: a missing
    or undecodable body is a status 500 with the state as it was.  For a
    decodable body, whoever sends it, the answer is SUCCESS with empty
    lists; every identifier of the body is registered, in [s2_added] and
    not in [s2_removed], so that [containedUsers] of [s1] returns the
    whole list; an identifier at position [i] and at no later one is bound
    to the token and the deadline of iteration [i]; and the users that
    are not in the body are as before. *)
Theorem addUsers_effect data urandom (clock : nat → Reading) st :
  let after := addUsers ParseFromString data urandom clock st in
  let ids := requested ParseFromString data in
  ((data = None ∨ ∃ body, data = Some body ∧ ParseFromString body = None) →
   after = (HTTP500, st))
  ∧ (∀ body req, data = Some body → ParseFromString body = Some req →
       after.1 = HTTP200 (_makeResponse [] [])
       ∧ UserSet.containedUsers (s1 after.2) ids = ids
       ∧ (∀ i id, ids !! i = Some id →
            ExpiringUserSet.userExists (s2_added after.2) id = true
            ∧ ExpiringUserSet.userExists (s2_removed after.2) id = false)
       ∧ (∀ i id, ids !! i = Some id →
            (∀ j, (i < j)%nat → ids !! j ≠ Some id) →
            UserSet.isValidUser (s1 after.2) id (urandom i) = true
            ∧ s2_added after.2 !! id = Some (_time (clock i) + s2_delta))
       ∧ (∀ v, v ∉ ids →
            s1 after.2 !! v = s1 st !! v
            ∧ s2_added after.2 !! v = s2_added st !! v
            ∧ s2_removed after.2 !! v = s2_removed st !! v)).
Proof.
  cbv zeta. rewrite addUsers_state. unfold requested. split.
  { intros [->|(body & -> & ->)]; done. }
  intros body req -> ->. simpl.
  destruct (registrations_state
              (λ p : nat * bytes, (p.2, urandom p.1, clock p.1))
              (imap (λ i id, (i, id)) (identifiers req)) st)
    as (Hin & Hlast & Hframe & _).
  simpl in Hin, Hlast, Hframe.
  assert (∀ i p, imap (λ i id, (i, id)) (identifiers req) !! i = Some p
                 ↔ p.1 = i ∧ identifiers req !! i = Some p.2) as Himap.
  { intros i [j id]. rewrite list_lookup_imap. simpl.
    destruct (identifiers req !! i) as [x|]; simpl; split.
    - by intros [= <- <-].
    - by intros [<- [= ->]].
    - done.
    - by intros [_ [=]]. }
  split_and!; [done| | | |].
  - apply (filter_dom_algebra (foldl _ _ _).(s1) (identifiers req) []).
    intros x [i Hi]%list_elem_of_lookup.
    by destruct (Hin i (i, x)) as (H1 & _); [by apply Himap|].
  - intros i id Hi. destruct (Hin i (i, id)) as (_ & H2 & H3);
      [by apply Himap|].
    by rewrite ExpiringUserSet_userExists_true,
      ExpiringUserSet_userExists_false.
  - intros i id Hi Hlater. rewrite UserSet_isValidUser_true.
    apply (Hlast i (i, id)); [by apply Himap|].
    intros j [j' id'] Hij [Hj Hid]%Himap. simpl in *. subst j'.
    intros ->. by apply (Hlater j).
  - intros v Hv. apply Hframe. intros j [j' id'] [_ Hid]%Himap. simpl in *.
    intros ->. apply Hv. apply list_elem_of_lookup. by eauto.
Qed.

End TestEndpoints.

(** ** Instances *)
Lemma registerUser_effect_witness :
  let body : bytes :=
    [Byte.x0a; Byte.x01; Byte.x61; Byte.x12; Byte.x01; Byte.x74] in
  let after :=
    App.registerUser Request_ParseFromString (Some body)
      Examples.t10 Examples.t10 App.initial in
  Request_ParseFromString body
  = Some (mkRequest Examples.alice Examples.token [])
  ∧ after.1 = App.HTTP200 (App._makeResponse [] [])
  ∧ App.s2_added after.2 !! Examples.alice = Some (10 + 864000).
Proof.
  intros body after.
  assert (Request_ParseFromString body
          = Some (mkRequest Examples.alice Examples.token [])) as Hparse
    by reflexivity.
  split; [exact Hparse|].
  destruct (registerUser_effect Request_ParseFromString body _
              Examples.t10 Examples.t10 App.initial Hparse)
    as (Hreply & _ & Hadded & _).
  split; [exact Hreply|exact Hadded].
Defined.

Lemma deleteUser_effect_witness :
  let body : bytes :=
    [Byte.x0a; Byte.x01; Byte.x61; Byte.x12; Byte.x01; Byte.x74] in
  let st := App.set_s1 {[ Examples.alice := Examples.token ]} App.initial in
  let after :=
    App.deleteUser Request_ParseFromString (Some body)
      Examples.t10 Examples.t10 st in
  Request_ParseFromString body
  = Some (mkRequest Examples.alice Examples.token [])
  ∧ after.1 = App.HTTP200 (App._makeResponse [] [])
  ∧ App.s2_removed after.2 !! Examples.alice = Some (10 + 864000).
Proof.
  intros body st after.
  assert (Request_ParseFromString body
          = Some (mkRequest Examples.alice Examples.token [])) as Hparse
    by reflexivity.
  split; [exact Hparse|].
  destruct (deleteUser_effect Request_ParseFromString body _
              Examples.t10 Examples.t10 st Hparse)
    as (_ & Hvalid).
  destruct (Hvalid eq_refl) as (Hreply & _ & Hremoved & _).
  split; [exact Hreply|exact Hremoved].
Defined.

Lemma incremental_reply_in_window_witness :
  let body : bytes :=
    [Byte.x0a; Byte.x01; Byte.x61; Byte.x12; Byte.x01; Byte.x74;
     Byte.x1a; Byte.x01; Byte.x62] in
  let st :=
    App.set_s2_added {[ Examples.bob := 1000 ]}
      (App.set_s1
         {[ Examples.alice := Examples.token;
            Examples.bob := Examples.token ]} App.initial) in
  (App.incrementalDiscovery Request_ParseFromString (Some body)
     Examples.t10 Examples.t10 st).1
  = App.HTTP200 (App._makeResponse [Examples.bob] [])
  ∧ ∃ d, App.s2_added st !! Examples.bob = Some d
         ∧ App._time Examples.t10 < d.
Proof.
  intros body st.
  assert ((App.incrementalDiscovery Request_ParseFromString (Some body)
             Examples.t10 Examples.t10 st).1
          = App.HTTP200 (App._makeResponse [Examples.bob] [])) as Hreply
    by (vm_compute; reflexivity).
  split; [exact Hreply|].
  apply (proj1 (incremental_reply_in_window Request_ParseFromString
                  (Some body) Examples.t10 Examples.t10 st _ Hreply)).
  simpl. apply list_elem_of_here.
Defined.
